(** * Host discovery and configuration reconciliation of the [cde] launcher

    A shallow embedding of [src/index.js]: the probes that pick a container
    socket and an IPv4 address, the configuration loader, and the
    reconciliation flow of [main] up to the hand-off to the container
    launch.

    Modelling conventions.
    - A JavaScript string is a [string]; every character is one code unit
      below 256.
    - The machine the script runs on is a [Host]: the answers of the
      operating system and of the Node.js built-ins the script calls.  A
      subprocess is answered by the oracle [child_spawnSync]; its time-out
      option is part of that answer and is not modelled separately.
    - What the script changes is a [State]: the file system, the lines still
      to be typed on the terminal, and the trace of subprocesses started,
      questions asked and files written.  Plain console output is not
      modelled.
    - A computation is a function from [State] to an [Outcome] and a new
      [State]; [throw], [process.exit] and a prompt that never gets its
      answer are outcomes of their own. *)

From Stdlib Require Import String Ascii List ZArith NArith Lia Bool.
From stdpp Require Import base option list gmap strings pretty.

Set Default Proof Using "Type".
Local Open Scope string_scope.
Local Open Scope list_scope.

(** ** JavaScript values *)

(** A number is carried by the text [String(n)] gives for it; the script
    only tests numbers for truthiness and prints them. *)
#[warnings="-register-all"]
Inductive JSValue : Type :=
| JUndefined
| JNull
| JBool (b : bool)
| JNum (repr : string)
| JStr (s : string)
| JArr (items : list JSValue)
| JObj (fields : list (string * JSValue)).

Record JSError : Type := mkError { err_name : string; err_message : string }.

Definition Error (msg : string) : JSError := mkError "Error" msg.
Definition SyntaxError (msg : string) : JSError := mkError "SyntaxError" msg.
Definition instanceof_SyntaxError (e : JSError) : bool :=
  String.eqb (err_name e) "SyntaxError".

(** [!!v] *)
Definition truthy (v : JSValue) : bool :=
  match v with
  | JUndefined | JNull => false
  | JBool b => b
  | JNum r => negb (String.eqb r "0" || String.eqb r "NaN")
  | JStr s => negb (String.eqb s "")
  | JArr _ | JObj _ => true
  end.

Definition typeof (v : JSValue) : string :=
  match v with
  | JUndefined => "undefined"
  | JNull => "object"
  | JBool _ => "boolean"
  | JNum _ => "number"
  | JStr _ => "string"
  | JArr _ | JObj _ => "object"
  end.

Definition Array_isArray (v : JSValue) : bool :=
  match v with JArr _ => true | _ => false end.

Definition is_null (v : JSValue) : bool :=
  match v with JNull => true | _ => false end.

(** [a || b] on values *)
Definition js_or (a b : JSValue) : JSValue := if truthy a then a else b.

(** [a ?? b] *)
Definition js_nullish (a b : JSValue) : JSValue :=
  match a with JUndefined | JNull => b | _ => a end.

(** [`${v}`] *)
Fixpoint ToString (v : JSValue) : string :=
  match v with
  | JUndefined => "undefined"
  | JNull => "null"
  | JBool true => "true"
  | JBool false => "false"
  | JNum r => r
  | JStr s => s
  | JArr items =>
      String.concat ","
        (map (fun x => match x with
                       | JUndefined | JNull => ""
                       | _ => ToString x
                       end) items)
  | JObj _ => "[object Object]"
  end.

(** Property read [o.k] and property write [o.k = v] on a plain object. *)
Fixpoint assoc_get (k : string) (fields : list (string * JSValue)) : JSValue :=
  match fields with
  | [] => JUndefined
  | (k', v) :: rest => if String.eqb k k' then v else assoc_get k rest
  end.

Fixpoint assoc_set (k : string) (v : JSValue) (fields : list (string * JSValue))
  : list (string * JSValue) :=
  match fields with
  | [] => [(k, v)]
  | (k', v') :: rest =>
      if String.eqb k k' then (k, v) :: rest else (k', v') :: assoc_set k v rest
  end.

Definition get_prop (o : JSValue) (k : string) : JSValue :=
  match o with JObj fields => assoc_get k fields | _ => JUndefined end.

Definition set_prop (o : JSValue) (k : string) (v : JSValue) : JSValue :=
  match o with JObj fields => JObj (assoc_set k v fields) | _ => o end.

Definition of_nullable (o : option string) : JSValue :=
  match o with Some s => JStr s | None => JNull end.

(** ** Strings *)

Definition chars (s : string) : list ascii := list_ascii_of_string s.
Definition text (l : list ascii) : string := string_of_list_ascii l.

(** [s.startsWith(prefix)] *)
Definition startsWith (s prefix : string) : bool := String.prefix prefix s.

Definition code (c : ascii) : N := N_of_ascii c.

(** White space of [\s] and of [trim]: TAB, LF, VT, FF, CR, SP and NBSP. *)
Definition is_space (c : ascii) : bool :=
  ((9 <=? code c) && (code c <=? 13) || (code c =? 32) || (code c =? 160))%N.

Definition is_digit (c : ascii) : bool :=
  ((48 <=? code c) && (code c <=? 57))%N.

Definition lower_char (c : ascii) : ascii :=
  if ((65 <=? code c) && (code c <=? 90)
      || (192 <=? code c) && (code c <=? 222) && negb (code c =? 215))%N
  then ascii_of_N (code c + 32)
  else c.

(** [s.toLowerCase()] *)
Definition toLowerCase (s : string) : string := text (map lower_char (chars s)).

Fixpoint trim_start (l : list ascii) : list ascii :=
  match l with
  | c :: l' => if is_space c then trim_start l' else l
  | [] => []
  end.

(** [s.trim()] *)
Definition trim (s : string) : string :=
  text (rev (trim_start (rev (trim_start (chars s))))).

(** [l.split(/\s+/)] on characters: [cur] is the piece being read, reversed;
    [in_sep] says that the last character read was white space. *)
Fixpoint split_spaces_from (l : list ascii) (cur : list ascii) (in_sep : bool)
  : list string :=
  match l with
  | [] => [text (rev cur)]
  | c :: l' =>
      if is_space c
      then if in_sep
           then split_spaces_from l' cur true
           else text (rev cur) :: split_spaces_from l' [] true
      else split_spaces_from l' (c :: cur) false
  end.

Definition split_spaces (s : string) : list string :=
  split_spaces_from (chars s) [] false.

(** ** Regular expressions

    The fragment of the regular expressions of JavaScript that the script
    uses, with the backtracking order of the language: an alternative tries
    its left branch first, a quantifier takes as much as it can first. *)

Inductive cclass : Type :=
| CChar (c : ascii)                 (* a literal character *)
| CRange (lo hi : ascii)            (* [lo-hi] *)
| CSpace                            (* \s *)
| CNot (c : ascii).                 (* [^c] *)

Definition cmatch (cl : cclass) (c : ascii) : bool :=
  match cl with
  | CChar x => Ascii.eqb c x
  | CRange lo hi => ((code lo <=? code c) && (code c <=? code hi))%N
  | CSpace => is_space c
  | CNot x => negb (Ascii.eqb c x)
  end.

Inductive regex : Type :=
| Eps
| Chr (cl : cclass)
| Seq (a b : regex)
| Alt (a b : regex)
| Star (cl : cclass)                (* cl*, greedy *)
| Group (r : regex)                 (* the capturing group, number 1 *)
| Bol                               (* ^ *)
| Eol.                              (* $, without the m flag *)

(** [r?] *)
Definition Opt (r : regex) : regex := Alt r Eps.
(** [cl+], one or more *)
Definition Plus (cl : cclass) : regex := Seq (Chr cl) (Star cl).
(** [r{n}] *)
Fixpoint Times (n : nat) (r : regex) : regex :=
  match n with
  | O => Eps
  | S n' => Seq r (Times n' r)
  end.
(** [r{0,n}] *)
Fixpoint UpTo (n : nat) (r : regex) : regex :=
  match n with
  | O => Eps
  | S n' => Opt (Seq r (UpTo n' r))
  end.
(** [r{lo,hi}] *)
Definition Between (lo hi : nat) (r : regex) : regex :=
  Seq (Times lo r) (UpTo (hi - lo) r).
(** a literal word *)
Fixpoint Lit (l : list ascii) : regex :=
  match l with
  | [] => Eps
  | c :: l' => Seq (Chr (CChar c)) (Lit l')
  end.

Section Matcher.

Context {R : Type}.

(** The loop of a greedy [cl*]: take one more character if that leads to a
    match, stop here otherwise. *)
Fixpoint star_loop (cl : cclass) (k : nat -> list ascii -> option R)
    (pos : nat) (s : list ascii) : option R :=
  match s with
  | c :: s' =>
      if cmatch cl c
      then match star_loop cl k (S pos) s' with
           | Some x => Some x
           | None => k pos s
           end
      else k pos s
  | [] => k pos s
  end.

(** [rmatch r pos s cap k]: match [r] at index [pos], where [s] is the input
    from [pos] on and [cap] the capture so far, then go on with [k]; [None]
    makes the matcher backtrack. *)
Fixpoint rmatch (r : regex) (pos : nat) (s : list ascii) (cap : option string)
    (k : nat -> list ascii -> option string -> option R) : option R :=
  match r with
  | Eps => k pos s cap
  | Chr cl =>
      match s with
      | c :: s' => if cmatch cl c then k (S pos) s' cap else None
      | [] => None
      end
  | Seq a b => rmatch a pos s cap (fun pos' s' cap' => rmatch b pos' s' cap' k)
  | Alt a b =>
      match rmatch a pos s cap k with
      | Some x => Some x
      | None => rmatch b pos s cap k
      end
  | Star cl => star_loop cl (fun pos' s' => k pos' s' cap) pos s
  | Group r' =>
      rmatch r' pos s cap
        (fun pos' s' _ => k pos' s' (Some (text (firstn (pos' - pos) s))))
  | Bol => if Nat.eqb pos 0 then k pos s cap else None
  | Eol => match s with [] => k pos s cap | _ => None end
  end.

End Matcher.

(** A match: the index after it, the input after it, and group 1. *)
Definition MatchResult : Type := nat * list ascii * option string.

(** The leftmost match that starts at index [pos] or later. *)
Fixpoint search (r : regex) (pos : nat) (s : list ascii) : option MatchResult :=
  match rmatch r pos s None (fun pos' s' cap => Some (pos', s', cap)) with
  | Some m => Some m
  | None =>
      match s with
      | [] => None
      | _ :: s' => search r (S pos) s'
      end
  end.

(** [re.test(s)] and [s.match(re)] (as a truth value) without the g flag *)
Definition regex_test (r : regex) (s : string) : bool :=
  match search r 0 (chars s) with Some _ => true | None => false end.

(** [s.match(re)[1]] without the g flag *)
Definition regex_match1 (r : regex) (s : string) : option string :=
  match search r 0 (chars s) with
  | Some (_, _, cap) => cap
  | None => None
  end.

(** [while ((match = re.exec(s)) !== null) { ip = match[1]; if (keep ip) return ip; }]
    for a regular expression with the g flag: every call goes on where the
    match before it ended. *)
Fixpoint exec_loop (fuel : nat) (r : regex) (pos : nat) (s : list ascii)
    (keep : string -> bool) : option string :=
  match fuel with
  | O => None
  | S fuel' =>
      match search r pos s with
      | None => None
      | Some (pos', s', cap) =>
          let ip := default "" cap in
          if keep ip then Some ip else exec_loop fuel' r pos' s' keep
      end
  end.

Definition first_kept_match (r : regex) (s : string) (keep : string -> bool)
  : option string :=
  exec_loop (S (String.length s)) r 0 (chars s) keep.

(** What a regular expression denotes: [matches r pos s rest] says that [r],
    put at index [pos] where the input goes on with [s ++ rest], can take
    exactly [s]. *)
Fixpoint matches (r : regex) (pos : nat) (s rest : list ascii) : Prop :=
  match r with
  | Eps => s = []
  | Chr cl => exists c, s = [c] /\ cmatch cl c = true
  | Seq a b =>
      exists s1 s2,
        s = s1 ++ s2 /\ matches a pos s1 (s2 ++ rest)
        /\ matches b (pos + length s1) s2 rest
  | Alt a b => matches a pos s rest \/ matches b pos s rest
  | Star cl => forallb (cmatch cl) s = true
  | Group r' => matches r' pos s rest
  | Bol => s = [] /\ pos = 0
  | Eol => s = [] /\ rest = []
  end.

Definition digit : cclass := CRange "0" "9".

(** [[0-9]{1,3}\.[0-9]{1,3}\.[0-9]{1,3}\.[0-9]{1,3}] *)
Definition loose_quad : regex :=
  Seq (Between 1 3 (Chr digit))
    (Seq (Chr (CChar "."))
       (Seq (Between 1 3 (Chr digit))
          (Seq (Chr (CChar "."))
             (Seq (Between 1 3 (Chr digit))
                (Seq (Chr (CChar ".")) (Between 1 3 (Chr digit))))))).

(** ** The host and the state *)

Record SpawnSyncReturns : Type := mkSpawned {
  status : option Z;   (* [null] when the child was killed or never started *)
  stdout : string
}.

Record NetworkInterfaceInfo : Type := mkAddr {
  address : string;
  family : string;
  internal : bool
}.

Inductive FsNode : Type :=
| File (content : string)
| Directory.

Record Host : Type := mkHost {
  process_platform : string;
  (* read on platforms other than Windows only *)
  process_getuid : N;
  process_env : gmap string string;
  os_homedir : string;
  (* [None]: the call throws *)
  os_networkInterfaces : option (list (string * list NetworkInterfaceInfo));
  (* [inl e]: the call throws [e] *)
  child_spawnSync : string -> list string -> JSError + SpawnSyncReturns;
  path_join : list string -> string;
  (* [None]: a SyntaxError is thrown *)
  JSON_parse : string -> option JSValue;
  (* [JSON.stringify(v, null, 2)] *)
  JSON_stringify : JSValue -> string
}.

Inductive Event : Type :=
| EvSpawn (cmd : string) (args : list string)
| EvQuestion (promptText : string)
| EvWriteFile (path content : string).

Record State : Type := mkState {
  fs : gmap string FsNode;
  (* the lines that the user is going to type, one for each question *)
  stdin : list string;
  trace : list Event
}.

Inductive Outcome (A : Type) : Type :=
| Ret (a : A)              (* the value returned *)
| Throw (e : JSError)      (* an exception on its way up *)
| Exit (code : Z)          (* [process.exit(code)] *)
| Pending.                 (* a question whose answer never comes *)

Arguments Ret {A} a.
Arguments Throw {A} e.
Arguments Exit {A} code.
Arguments Pending {A}.

Definition M (A : Type) : Type := State -> Outcome A * State.

Definition ret {A} (a : A) : M A := fun st => (Ret a, st).

Definition bind {A B} (m : M A) (f : A -> M B) : M B :=
  fun st =>
    match m st with
    | (Ret a, st') => f a st'
    | (Throw e, st') => (Throw e, st')
    | (Exit c, st') => (Exit c, st')
    | (Pending, st') => (Pending, st')
    end.

Definition throw {A} (e : JSError) : M A := fun st => (Throw e, st).

Definition process_exit {A} (code : Z) : M A := fun st => (Exit code, st).

(** [try { body } catch (e) { handler e }] *)
Definition try_catch {A} (body : M A) (handler : JSError -> M A) : M A :=
  fun st =>
    match body st with
    | (Throw e, st') => handler e st'
    | r => r
    end.

Definition emit (ev : Event) : M unit :=
  fun st => (Ret tt, mkState (fs st) (stdin st) (trace st ++ [ev])).

Notation "'do' x <- c1 ; c2" := (bind c1 (fun x => c2))
  (at level 10, x name, c1 at level 100, c2 at level 200).
Notation "'run' c1 ; c2" := (bind c1 (fun _ => c2))
  (at level 10, c1 at level 100, c2 at level 200).

Section Program.

Variable h : Host.

(** ** Built-ins of Node.js, answered by the host *)

Definition homedir : string := os_homedir h.
Definition join (parts : list string) : string := path_join h parts.

Definition spawnSync (cmd : string) (args : list string) : M SpawnSyncReturns :=
  run emit (EvSpawn cmd args);
  match child_spawnSync h cmd args with
  | inl e => throw e
  | inr r => ret r
  end.

Definition existsSync (path : string) : M bool :=
  fun st => (Ret (bool_decide (is_Some (fs st !! path))), st).

Definition readFileSync (path : string) : M string :=
  fun st =>
    match fs st !! path with
    | Some (File content) => (Ret content, st)
    | Some Directory =>
        (Throw (Error "EISDIR: illegal operation on a directory, read"), st)
    | None =>
        (Throw (Error ("ENOENT: no such file or directory, open '" +:+ path +:+ "'")), st)
    end.

Definition writeFileSync (path content : string) : M unit :=
  fun st =>
    match fs st !! path with
    | Some Directory =>
        (Throw (Error ("EISDIR: illegal operation on a directory, open '" +:+ path +:+ "'")), st)
    | _ =>
        (Ret tt, mkState (<[path := File content]> (fs st)) (stdin st)
                   (trace st ++ [EvWriteFile path content]))
    end.

Definition status_is_0 (r : SpawnSyncReturns) : bool :=
  match status r with Some 0%Z => true | _ => false end.

(** ** getOS *)

Definition getOS : string :=
  if existsb (String.eqb (process_platform h)) ["win32"; "cygwin"]
  then "windows"
  else process_platform h.

(** ** commandExists *)

Definition commandExists (command : string) : M bool :=
  try_catch
    (do result <- (if String.eqb getOS "windows"
                   then spawnSync "where" [command]
                   else spawnSync "which" [command]);
     ret (status_is_0 result))
    (fun _ => ret false).

(** ** checkDockerSocketAccess *)

Definition docker_version_args (socketPath : string) : list string :=
  ["run"; "--rm";
   "-v"; socketPath +:+ ":/var/run/docker.sock";
   "alpinelinux/docker-cli";
   "docker"; "version"; "--format"; "json"].

Definition checkDockerSocketAccess (socketPath : string) : M bool :=
  try_catch
    (do ce <- commandExists "docker";
     let dockerCommand := if ce then "docker" else "podman" in
     do result <- spawnSync dockerCommand (docker_version_args socketPath);
     if status_is_0 result then ret true else ret false)
    (fun _ => ret false).

(** ** getDockerSocketPath *)

Definition defaultSocketPaths : list string :=
  let defaultSocketPaths :=
    ["/var/run/docker.sock";
     "/run/docker.sock";
     join [homedir; ".docker/desktop/docker.sock"];
     "/usr/local/var/run/docker.sock"] in
  if negb (String.eqb getOS "windows")
  then defaultSocketPaths ++
       ["/run/user/" +:+ pretty (process_getuid h) +:+ "/docker.sock";
        "/run/user/" +:+ pretty (process_getuid h) +:+ "/podman/podman.sock"]
  else defaultSocketPaths.

Fixpoint first_accessible (paths : list string) : M (option string) :=
  match paths with
  | [] => ret None
  | socketPath :: rest =>
      do ok <- checkDockerSocketAccess socketPath;
      if ok then ret (Some socketPath) else first_accessible rest
  end.

Definition getDockerSocketPath : M (option string) :=
  first_accessible defaultSocketPaths.

(** ** getSshDirectory *)

(** [process.env.NAME || dflt] *)
Definition env_or (name dflt : string) : string :=
  match process_env h !! name with
  | Some v => if String.eqb v "" then dflt else v
  | None => dflt
  end.

(** [`${process.env.NAME}`] *)
Definition env_text (name : string) : string :=
  match process_env h !! name with
  | Some v => v
  | None => "undefined"
  end.

Fixpoint first_existing (paths : list string) : M (option string) :=
  match paths with
  | [] => ret None
  | sshPath :: rest =>
      do ex <- existsSync sshPath;
      if ex then ret (Some sshPath) else first_existing rest
  end.

Definition getSshDirectory : M (option string) :=
  let defaultSshPath := join [homedir; ".ssh"] in
  do ex <- existsSync defaultSshPath;
  if ex then ret (Some defaultSshPath)
  else if String.eqb getOS "windows"
  then first_existing
         [join [env_or "USERPROFILE" homedir; ".ssh"];
          join [env_or "HOMEDRIVE" "C:";
                env_or "HOMEPATH" ("\Users\" +:+ env_text "USERNAME");
                ".ssh"];
          join ["C:"; "Users"; env_or "USERNAME" "user"; ".ssh"]]
  else ret None.

(** ** getExternalIPCommandLine *)

(** [!ip.startsWith('127.') && !ip.startsWith('169.254.')] *)
Definition not_excluded (ip : string) : bool :=
  negb (startsWith ip "127.") && negb (startsWith ip "169.254.").

(** [/IPv4[^:]*:\s*([0-9]{1,3}\.[0-9]{1,3}\.[0-9]{1,3}\.[0-9]{1,3})/g] *)
Definition ipconfigRegex : regex :=
  Seq (Lit (chars "IPv4"))
    (Seq (Star (CNot ":"))
       (Seq (Chr (CChar ":")) (Seq (Star CSpace) (Group loose_quad)))).

(** [/^[0-9]{1,3}\.[0-9]{1,3}\.[0-9]{1,3}\.[0-9]{1,3}$/] *)
Definition hostnameRegex : regex := Seq Bol (Seq loose_quad Eol).

(** [/src\s+([0-9]{1,3}\.[0-9]{1,3}\.[0-9]{1,3}\.[0-9]{1,3})/] *)
Definition srcRegex : regex :=
  Seq (Lit (chars "src")) (Seq (Plus CSpace) (Group loose_quad)).

(** [/inet\s+(?:addr:)?([0-9]{1,3}\.[0-9]{1,3}\.[0-9]{1,3}\.[0-9]{1,3})/g] *)
Definition inetRegex : regex :=
  Seq (Lit (chars "inet"))
    (Seq (Plus CSpace) (Seq (Opt (Lit (chars "addr:"))) (Group loose_quad))).

(** The commands of the POSIX branch; [None] is a missing [args]. *)
Definition commands : list (string * option (list string)) :=
  [("hostname", Some ["-I"]);
   ("ip", Some ["route"; "get"; "1.1.1.1"]);
   ("ifconfig", None);
   ("route", Some ["get"; "default"])].

(** [result.status === 0 && result.stdout] *)
Definition has_output (result : SpawnSyncReturns) : bool :=
  status_is_0 result && negb (String.eqb (stdout result) "").

(** One turn of the loop over [commands]: [Some ip] is [return ip], [None]
    goes on with the next command. *)
Definition try_command (c : string * option (list string)) : M (option string) :=
  let '(cmd, args) := c in
  try_catch
    (do result <- spawnSync cmd (default [] args);
     if has_output result
     then
       let output := stdout result in
       if String.eqb cmd "hostname"
          && match args with
             | Some (a0 :: _) => String.eqb a0 "-I"
             | _ => false
             end
       then
         let ips := split_spaces (trim output) in
         ret (List.find (fun ip => regex_test hostnameRegex ip && not_excluded ip) ips)
       else if String.eqb cmd "ip"
       then ret (regex_match1 srcRegex output)
       else ret (first_kept_match inetRegex output not_excluded)
     else ret None)
    (fun _ => ret None).

Fixpoint try_commands (cs : list (string * option (list string)))
  : M (option string) :=
  match cs with
  | [] => ret None
  | c :: rest =>
      do r <- try_command c;
      match r with
      | Some ip => ret (Some ip)
      | None => try_commands rest
      end
  end.

Definition getExternalIPCommandLine : M (option string) :=
  try_catch
    (if String.eqb getOS "windows"
     then
       do result <- spawnSync "ipconfig" [];
       if has_output result
       then ret (first_kept_match ipconfigRegex (stdout result) not_excluded)
       else ret None
     else try_commands commands)
    (fun _ => ret None).

(** ** getExternalIP *)

Definition interfacePriority : list string :=
  ["eth"; "en"; "wlan"; "wifi"; "ethernet"].

Definition NetworkInterfaces : Type := list (string * list NetworkInterfaceInfo).

(** [Object.keys(nets)] *)
Definition Object_keys (nets : NetworkInterfaces) : list string := map fst nets.

(** [nets[name]] *)
Fixpoint nets_get (nets : NetworkInterfaces) (name : string)
  : option (list NetworkInterfaceInfo) :=
  match nets with
  | [] => None
  | (n, net) :: rest => if String.eqb name n then Some net else nets_get rest name
  end.

(** [addr.family === 'IPv4' && !addr.internal] *)
Definition usable (addr : NetworkInterfaceInfo) : bool :=
  String.eqb (family addr) "IPv4" && negb (internal addr).

(** The innermost loop: the first usable address of one interface. *)
Definition first_usable (net : list NetworkInterfaceInfo) : option string :=
  option_map address (List.find usable net).

(** A loop whose body may [return]. *)
Fixpoint first_return {A B} (body : A -> option B) (l : list A) : option B :=
  match l with
  | [] => None
  | x :: rest =>
      match body x with
      | Some y => Some y
      | None => first_return body rest
      end
  end.

Definition is_priority_name (priority name : string) : bool :=
  startsWith (toLowerCase name) priority.

Definition first_pass (nets : NetworkInterfaces) : option string :=
  first_return
    (fun priority =>
       first_return
         (fun name =>
            if is_priority_name priority name
            then match nets_get nets name with
                 | Some net => first_usable net
                 | None => None
                 end
            else None)
         (Object_keys nets))
    interfacePriority.

Definition second_pass (nets : NetworkInterfaces) : option string :=
  first_return
    (fun name =>
       match nets_get nets name with
       | Some net => first_usable net
       | None => None
       end)
    (Object_keys nets).

(** [networkInterfaces()] *)
Definition networkInterfaces : M NetworkInterfaces :=
  match os_networkInterfaces h with
  | Some nets => ret nets
  | None => throw (mkError "SystemError" "A system error occurred: uv_interface_addresses returned Unknown system error")
  end.

Definition getExternalIP : M (option string) :=
  try_catch
    (do nets <- networkInterfaces;
     match first_pass nets with
     | Some ip => ret (Some ip)
     | None =>
         match second_pass nets with
         | Some ip => ret (Some ip)
         | None => getExternalIPCommandLine
         end
     end)
    (fun _ => getExternalIPCommandLine).

(** ** isIPAvailable *)

(** [(?:25[0-5]|2[0-4][0-9]|[01]?[0-9][0-9]?)] *)
Definition octet : regex :=
  Alt (Seq (Chr (CChar "2")) (Seq (Chr (CChar "5")) (Chr (CRange "0" "5"))))
    (Alt (Seq (Chr (CChar "2")) (Seq (Chr (CRange "0" "4")) (Chr digit)))
       (Seq (Opt (Chr (CRange "0" "1"))) (Seq (Chr digit) (Opt (Chr digit))))).

(** [/^(?:(?:25[0-5]|2[0-4][0-9]|[01]?[0-9][0-9]?)\.){3}(?:25[0-5]|2[0-4][0-9]|[01]?[0-9][0-9]?)$/] *)
Definition ipRegex : regex :=
  Seq Bol (Seq (Times 3 (Seq octet (Chr (CChar ".")))) (Seq octet Eol)).

Definition pingArgs (ip : string) : list string :=
  if String.eqb getOS "windows"
  then ["-n"; "1"; "-w"; "1000"; ip]
  else if String.eqb (process_platform h) "darwin"
  then ["-c"; "1"; "-W"; "1000"; ip]
  else ["-c"; "1"; "-W"; "1"; ip].

Definition isIPAvailable (ip : JSValue) : M bool :=
  try_catch
    (match ip with
     | JStr ip_s =>
         if negb (truthy ip) then ret false
         else if negb (regex_test ipRegex ip_s) then ret false
         else
           do result <- spawnSync "ping" (pingArgs ip_s);
           ret (status_is_0 result)
     | _ => ret false            (* [!ip || typeof ip !== 'string'] *)
     end)
    (fun _ => ret false).

(** ** promptUser *)

Definition promptUser (question : string) (defaultValue : JSValue) : M JSValue :=
  let promptText :=
    if truthy defaultValue
    then question +:+ " (" +:+ ToString defaultValue +:+ "): "
    else question +:+ ": " in
  run emit (EvQuestion promptText);
  fun st =>
    match stdin st with
    | answer :: rest =>
        (Ret (js_or (JStr (trim answer)) defaultValue),
         mkState (fs st) rest (trace st))
    | [] => (Pending, st)
    end.

(** ** getConfig *)

Definition configFileName : string := ".dexilion.cde.conf".

Definition getConfig : M JSValue :=
  let configPath := join [homedir; configFileName] in
  try_catch
    (do ex <- existsSync configPath;
     if ex
     then
       do configContent <- readFileSync configPath;
       do config <- match JSON_parse h configContent with
                    | Some v => ret v
                    | None => throw (SyntaxError "Unexpected token in JSON")
                    end;
       if negb (String.eqb (typeof config) "object")
          || is_null config || Array_isArray config
       then throw (Error "Configuration file must contain a JSON object")
       else ret config
     else ret JNull)
    (fun error =>
       if instanceof_SyntaxError error
       then throw (Error ("Invalid JSON in configuration file: " +:+ configPath))
       else throw error).

(** ** saveConfig *)

Definition saveConfig (config : JSValue) : M unit :=
  let configPath := join [homedir; configFileName] in
  let configData :=
    JObj [("dockerSocket", get_prop config "dockerSocket");
          ("sshKeysDir", get_prop config "sshKeysDir");
          ("externalIP", get_prop config "externalIP")] in
  writeFileSync configPath (JSON_stringify h configData).

(** ** main, up to the call of [runDockerContainer] *)

(** [if (!config.dockerSocket) { ... }] *)
Definition gather_socket (config : JSValue) : M JSValue :=
  if negb (truthy (get_prop config "dockerSocket"))
  then
    do found <- getDockerSocketPath;
    do answer <- promptUser "Docker Socket path" (js_or (of_nullable found) (JStr ""));
    let config := set_prop config "dockerSocket" answer in
    if negb (truthy (get_prop config "dockerSocket"))
    then process_exit 1
    else ret config
  else ret config.

(** [if (!config.externalIP) { ... }] *)
Definition gather_address (config : JSValue) : M JSValue :=
  if negb (truthy (get_prop config "externalIP"))
  then
    do found <- getExternalIP;
    do answer <- promptUser "IP address for React Native packager"
                   (js_or (of_nullable found) (JStr ""));
    let config := set_prop config "externalIP" answer in
    if negb (truthy (get_prop config "externalIP"))
    then process_exit 1
    else ret config
  else ret config.

(** [const sshKeysDir = getSshDirectory(); if (!sshKeysDir) { ... } else { ... }] *)
Definition gather_ssh (config : JSValue) : M JSValue :=
  do sshKeysDir <- getSshDirectory;
  if negb (truthy (of_nullable sshKeysDir))
  then
    do sshKeysDir <- promptUser "SSH Keys directory (leave empty to skip)" (JStr "");
    if truthy sshKeysDir
    then
      do ex <- existsSync (ToString sshKeysDir);
      if ex then ret (set_prop config "sshKeysDir" sshKeysDir) else ret config
    else ret config
  else ret (set_prop config "sshKeysDir" (of_nullable sshKeysDir)).

(** The branch of [main] that gathers what is missing and saves it. *)
Definition gather (config : JSValue) : M JSValue :=
  do config <- gather_socket config;
  do config <- gather_address config;
  do config <- gather_ssh config;
  run saveConfig config;
  ret config.

(** The condition of that branch. *)
Definition needs_gathering (config : JSValue) : bool :=
  negb (truthy config)
  || negb (truthy (get_prop config "externalIP"))
  || negb (truthy (get_prop config "externalIP")).

(** [main] from its start to the end of [if (...) { ... saveConfig(config); } else { ... }] *)
Definition load_or_gather : M JSValue :=
  do loaded <- getConfig;
  let config := js_nullish loaded (JObj []) in
  if needs_gathering config then gather config else ret config.

(** [if (!isIPAvailable(config.externalIP)) { ... }] *)
Definition revalidate (config : JSValue) : M JSValue :=
  do available <- isIPAvailable (get_prop config "externalIP");
  if negb available
  then
    do found <- getExternalIP;
    do answer <- promptUser "Please provide an available IP address"
                   (js_or (of_nullable found) (get_prop config "externalIP"));
    ret (set_prop config "externalIP" answer)
  else ret config.

(** The configuration that [main] passes to [runDockerContainer]. *)
Definition main : M JSValue :=
  do config <- load_or_gather;
  revalidate config.

End Program.

(** ** Reference notions of the specification *)

(** The value of a run of decimal digits. *)
Definition digit_value (c : ascii) : N := (code c - 48)%N.

Definition decimal_value (l : list ascii) : N :=
  fold_left (fun acc c => (10 * acc + digit_value c)%N) l 0%N.

(** One to three decimal digits that denote a number from 0 to 255. *)
Definition is_octet (l : list ascii) : bool :=
  negb (Nat.eqb (length l) 0) && (length l <=? 3)%nat
  && forallb is_digit l && (decimal_value l <=? 255)%N.

(** [s.split('.')] on characters; [cur] is the piece being read, reversed. *)
Fixpoint split_dots_from (l : list ascii) (cur : list ascii) : list (list ascii) :=
  match l with
  | [] => [rev cur]
  | c :: l' =>
      if Ascii.eqb c "."
      then rev cur :: split_dots_from l' []
      else split_dots_from l' (c :: cur)
  end.

(** The pieces with a dot between each two of them. *)
Fixpoint join_dots (pieces : list (list ascii)) : list ascii :=
  match pieces with
  | [] => []
  | [p] => p
  | p :: rest => p ++ "."%char :: join_dots rest
  end.

(** Exactly four octets, separated by dots. *)
Definition is_dotted_quad (s : string) : bool :=
  match split_dots_from (chars s) [] with
  | [a; b; c; d] => is_octet a && is_octet b && is_octet c && is_octet d
  | _ => false
  end.

(** What the host answers to a subprocess, as a truth value: it ran and
    exited with status zero. *)
Definition spawn_ok (h : Host) (cmd : string) (args : list string) : bool :=
  match child_spawnSync h cmd args with
  | inr r => status_is_0 r
  | inl _ => false
  end.

(** The lookup utility of the platform finds the command. *)
Definition command_found (h : Host) (command : string) : bool :=
  spawn_ok h (if String.eqb (getOS h) "windows" then "where" else "which") [command].

(** The runtime executable that the round trip uses. *)
Definition runtime_command (h : Host) : string :=
  if command_found h "docker" then "docker" else "podman".

(** The version query through the socket at [socketPath] reported success. *)
Definition round_trip_succeeded (h : Host) (socketPath : string) : bool :=
  spawn_ok h (runtime_command h) (docker_version_args socketPath).

(** The name starts, in any letter case, with one of the priority prefixes. *)
Definition priority_interface (name : string) : bool :=
  existsb (fun priority => is_priority_name priority name) interfacePriority.

(** A plain object: not an array, not a scalar, not [null]. *)
Definition is_plain_object (v : JSValue) : bool :=
  match v with JObj _ => true | _ => false end.

(** The state after more events. *)
Definition logged (evs : list Event) (st : State) : State :=
  mkState (fs st) (stdin st) (trace st ++ evs).

(** A computation that leaves the files as they are. *)
Definition keeps_files {A} (m : M A) : Prop :=
  forall st, fs (snd (m st)) = fs st.

(** A computation that only runs subprocesses, and returns or throws. *)
Definition quiet {A} (m : M A) : Prop :=
  forall st, exists o evs,
    m st = (o, logged evs st) /\ ((exists a, o = Ret a) \/ (exists e, o = Throw e)).

(** A computation that only runs subprocesses, and returns. *)
Definition probe {A} (m : M A) : Prop :=
  forall st, exists a evs, m st = (Ret a, logged evs st).

(** The candidate list as the specification words it. *)
Definition claimed_socket_candidates (h : Host) : list string :=
  let standard := "/var/run/docker.sock" in
  let user_scoped := "/run/user/" +:+ pretty (process_getuid h) +:+ "/docker.sock" in
  let desktop := path_join h [os_homedir h; ".docker/desktop/docker.sock"] in
  let package_manager := "/usr/local/var/run/docker.sock" in
  let alternate := "/run/user/" +:+ pretty (process_getuid h) +:+ "/podman/podman.sock" in
  if String.eqb (getOS h) "windows"
  then [standard; desktop; package_manager]
  else [standard; user_scoped; desktop; package_manager; alternate].

(** ** Hosts for the scenarios *)

Module Scenario.

(** [path.join] of POSIX on parts that need no normalisation. *)
Definition posix_join (parts : list string) : string := String.concat "/" parts.

(** *** A reader for JSON texts

    Strings, arrays, objects, the three literals and integers of at most
    fifteen digits; numbers with a fraction or an exponent and escapes above
    [ÿ] are not read by it. *)

Definition dquote : ascii := ascii_of_N 34.

(** Scenario texts are written with [']; this puts the double quotes back. *)
Definition json_text (s : string) : string :=
  text (map (fun c => if Ascii.eqb c "'" then dquote else c) (chars s)).

Definition is_json_space (c : ascii) : bool :=
  ((code c =? 32) || (code c =? 9) || (code c =? 10) || (code c =? 13))%N.

Fixpoint skip_ws (l : list ascii) : list ascii :=
  match l with
  | c :: l' => if is_json_space c then skip_ws l' else l
  | [] => []
  end.

Definition hex_value (c : ascii) : option N :=
  let n := code c in
  if ((48 <=? n) && (n <=? 57))%N then Some (n - 48)%N
  else if ((97 <=? n) && (n <=? 102))%N then Some (n - 87)%N
  else if ((65 <=? n) && (n <=? 70))%N then Some (n - 55)%N
  else None.

(** The characters of a string after its opening quote. *)
Fixpoint read_string (l : list ascii) (acc : list ascii)
  : option (string * list ascii) :=
  match l with
  | [] => None
  | c :: l' =>
      if Ascii.eqb c dquote then Some (text (rev acc), l')
      else if (code c <? 32)%N then None
      else if Ascii.eqb c "\" then
        match l' with
        | e :: l'' =>
            if Ascii.eqb e "u" then
              match l'' with
              | a :: b :: x :: y :: l3 =>
                  match hex_value a, hex_value b, hex_value x, hex_value y with
                  | Some 0%N, Some 0%N, Some hi, Some lo =>
                      read_string l3 (ascii_of_N (16 * hi + lo) :: acc)
                  | _, _, _, _ => None
                  end
              | _ => None
              end
            else
              match
                (if Ascii.eqb e dquote then Some dquote
                 else if Ascii.eqb e "\" then Some "\"%char
                 else if Ascii.eqb e "/" then Some "/"%char
                 else if Ascii.eqb e "b" then Some (ascii_of_N 8)
                 else if Ascii.eqb e "f" then Some (ascii_of_N 12)
                 else if Ascii.eqb e "n" then Some (ascii_of_N 10)
                 else if Ascii.eqb e "r" then Some (ascii_of_N 13)
                 else if Ascii.eqb e "t" then Some (ascii_of_N 9)
                 else None)
              with
              | Some d => read_string l'' (d :: acc)
              | None => None
              end
        | [] => None
        end
      else read_string l' (c :: acc)
  end.

Fixpoint span_digits (l : list ascii) : list ascii * list ascii :=
  match l with
  | c :: l' =>
      if is_digit c
      then let '(ds, rest) := span_digits l' in (c :: ds, rest)
      else ([], l)
  | [] => ([], [])
  end.

(** An integer, a zero or a run of digits that starts with none, with an
    optional minus sign before it; not followed by [.], [e] or [E]. *)
Definition read_number (l : list ascii) : option (JSValue * list ascii) :=
  let '(neg, l1) :=
    match l with
    | c :: l' => if Ascii.eqb c "-" then (true, l') else (false, l)
    | [] => (false, l)
    end in
  let '(ds, rest) := span_digits l1 in
  let followed :=
    match rest with
    | c :: _ => Ascii.eqb c "." || Ascii.eqb c "e" || Ascii.eqb c "E"
    | [] => false
    end in
  match ds with
  | [] => None
  | d :: ds' =>
      if followed || (15 <? length ds)%nat
         || (Ascii.eqb d "0" && negb (Nat.eqb (length ds') 0))
      then None
      else if Ascii.eqb d "0" then Some (JNum "0", rest)
      else Some (JNum (text (if neg then "-"%char :: ds else ds)), rest)
  end.

Definition read_word (w : string) (v : JSValue) (l : list ascii)
  : option (JSValue * list ascii) :=
  let n := String.length w in
  if String.eqb (text (firstn n l)) w then Some (v, skipn n l) else None.

(** Members are stored the way [JSON.parse] defines properties: a repeated
    key keeps its first position and takes the last value.  Keys that are
    array indices are not moved to the front. *)
Fixpoint read_value (fuel : nat) (l : list ascii) : option (JSValue * list ascii) :=
  match fuel with
  | O => None
  | S fuel' =>
      let read_items :=
        fix read_items (n : nat) (l : list ascii) (acc : list JSValue)
          : option (JSValue * list ascii) :=
          match n with
          | O => None
          | S n' =>
              match read_value fuel' l with
              | Some (v, rest) =>
                  match skip_ws rest with
                  | c :: rest' =>
                      if Ascii.eqb c "," then read_items n' rest' (v :: acc)
                      else if Ascii.eqb c "]" then Some (JArr (rev (v :: acc)), rest')
                      else None
                  | [] => None
                  end
              | None => None
              end
          end in
      let read_members :=
        fix read_members (n : nat) (l : list ascii) (acc : list (string * JSValue))
          : option (JSValue * list ascii) :=
          match n with
          | O => None
          | S n' =>
              match skip_ws l with
              | q :: l1 =>
                  if Ascii.eqb q dquote then
                    match read_string l1 [] with
                    | Some (k, l2) =>
                        match skip_ws l2 with
                        | c :: l3 =>
                            if Ascii.eqb c ":" then
                              match read_value fuel' l3 with
                              | Some (v, rest) =>
                                  let acc' := assoc_set k v acc in
                                  match skip_ws rest with
                                  | c' :: rest' =>
                                      if Ascii.eqb c' "," then read_members n' rest' acc'
                                      else if Ascii.eqb c' "}" then Some (JObj acc', rest')
                                      else None
                                  | [] => None
                                  end
                              | None => None
                              end
                            else None
                        | [] => None
                        end
                    | None => None
                    end
                  else None
              | [] => None
              end
          end in
      match skip_ws l with
      | [] => None
      | c :: l' =>
          if Ascii.eqb c "{" then
            match skip_ws l' with
            | c' :: l'' =>
                if Ascii.eqb c' "}" then Some (JObj [], l'')
                else read_members (length l) l' []
            | [] => None
            end
          else if Ascii.eqb c "[" then
            match skip_ws l' with
            | c' :: l'' =>
                if Ascii.eqb c' "]" then Some (JArr [], l'')
                else read_items (length l) l' []
            | [] => None
            end
          else if Ascii.eqb c dquote then
            match read_string l' [] with
            | Some (s, rest) => Some (JStr s, rest)
            | None => None
            end
          else if Ascii.eqb c "t" then read_word "true" (JBool true) (c :: l')
          else if Ascii.eqb c "f" then read_word "false" (JBool false) (c :: l')
          else if Ascii.eqb c "n" then read_word "null" JNull (c :: l')
          else read_number (c :: l')
      end
  end.

Definition parse (s : string) : option JSValue :=
  match read_value (S (String.length s)) (chars s) with
  | Some (v, rest) =>
      match skip_ws rest with
      | [] => Some v
      | _ => None
      end
  | None => None
  end.


(** *** A writer of JSON texts, with an indentation of two spaces *)

Definition hex_digit (n : N) : ascii :=
  if (n <? 10)%N then ascii_of_N (48 + n) else ascii_of_N (87 + n).

Definition quote_char (c : ascii) : list ascii :=
  let n := code c in
  if Ascii.eqb c dquote then ["\"; dquote]%char
  else if Ascii.eqb c "\" then ["\"; "\"]%char
  else if (n =? 8)%N then ["\"; "b"]%char
  else if (n =? 12)%N then ["\"; "f"]%char
  else if (n =? 10)%N then ["\"; "n"]%char
  else if (n =? 13)%N then ["\"; "r"]%char
  else if (n =? 9)%N then ["\"; "t"]%char
  else if (n <? 32)%N
  then ["\"; "u"; "0"; "0"; hex_digit (n / 16); hex_digit (n mod 16)]%char
  else [c].

Definition quote (s : string) : string :=
  text (dquote :: flat_map quote_char (chars s) ++ [dquote]).

Definition newline : string := String (ascii_of_N 10) "".

(** [None] is a value that [JSON.stringify] leaves out. *)
Fixpoint write_value (indent : string) (v : JSValue) : option string :=
  let inner := indent +:+ "  " in
  match v with
  | JUndefined => None
  | JNull => Some "null"
  | JBool true => Some "true"
  | JBool false => Some "false"
  | JNum r =>
      if String.eqb r "NaN" || String.eqb r "Infinity" || String.eqb r "-Infinity"
      then Some "null" else Some r
  | JStr s => Some (quote s)
  | JArr items =>
      match items with
      | [] => Some "[]"
      | _ =>
          Some ("[" +:+ newline
                +:+ String.concat ("," +:+ newline)
                      (map (fun x => inner +:+ default "null" (write_value inner x)) items)
                +:+ newline +:+ indent +:+ "]")
      end
  | JObj fields =>
      let lines :=
        flat_map (fun kv => match write_value inner (snd kv) with
                            | Some t => [inner +:+ quote (fst kv) +:+ ": " +:+ t]
                            | None => []
                            end) fields in
      match lines with
      | [] => Some "{}"
      | _ =>
          Some ("{" +:+ newline +:+ String.concat ("," +:+ newline) lines
                +:+ newline +:+ indent +:+ "}")
      end
  end.

Definition stringify (v : JSValue) : string := default "undefined" (write_value "" v).

(** *** A Linux machine

    User 1000 with home [/home/dev]; the loopback interface, a container
    bridge and one Ethernet card, in this order of enumeration.  What the
    subprocesses answer is the parameter [spawn]. *)

Definition interfaces : list (string * list NetworkInterfaceInfo) :=
  [("lo", [mkAddr "127.0.0.1" "IPv4" true; mkAddr "::1" "IPv6" true]);
   ("docker0", [mkAddr "172.17.0.1" "IPv4" false]);
   ("eth0", [mkAddr "fe80::1" "IPv6" false; mkAddr "192.168.1.42" "IPv4" false])].

Definition linux (spawn : string -> list string -> JSError + SpawnSyncReturns) : Host :=
  mkHost "linux" 1000 ∅ "/home/dev" (Some interfaces) spawn posix_join parse stringify.

Definition exited (code : Z) (out : string) : JSError + SpawnSyncReturns :=
  inr (mkSpawned (Some code) out).

(** No command is installed: every subprocess fails to start. *)
Definition nothing_installed (cmd : string) (args : list string)
  : JSError + SpawnSyncReturns :=
  inr (mkSpawned None "").

(** Some host answers the echo request sent to 10.0.0.5. *)
Definition answers_ping (cmd : string) (args : list string)
  : JSError + SpawnSyncReturns :=
  if String.eqb cmd "ping" && bool_decide (args = ["-c"; "1"; "-W"; "1"; "10.0.0.5"])
  then exited 0 "64 bytes from 10.0.0.5: icmp_seq=1 ttl=64 time=0.4 ms"
  else nothing_installed cmd args.

(** Docker is installed and its daemon listens on [/var/run/docker.sock]. *)
Definition docker_running (cmd : string) (args : list string)
  : JSError + SpawnSyncReturns :=
  if String.eqb cmd "which" && bool_decide (args = ["docker"])
  then exited 0 "/usr/bin/docker"
  else if String.eqb cmd "docker"
          && bool_decide (args = ["run"; "--rm"; "-v";
                                  "/var/run/docker.sock:/var/run/docker.sock";
                                  "alpinelinux/docker-cli";
                                  "docker"; "version"; "--format"; "json"])
  then exited 0 "{}"
  else nothing_installed cmd args.

(** [hostname -I] is missing and the route to 1.1.1.1 leaves from a
    link-local address. *)
Definition route_from_link_local (cmd : string) (args : list string)
  : JSError + SpawnSyncReturns :=
  if String.eqb cmd "ip" && bool_decide (args = ["route"; "get"; "1.1.1.1"])
  then exited 0 "1.1.1.1 dev eth0 src 169.254.10.20 uid 1000"
  else nothing_installed cmd args.

Definition configPath : string := "/home/dev/.dexilion.cde.conf".

(** A machine whose only interfaces are the loopback and a container bridge. *)
Definition bridge_only : Host :=
  mkHost "linux" 1000 ∅ "/home/dev"
    (Some [("lo", [mkAddr "127.0.0.1" "IPv4" true]);
           ("docker0", [mkAddr "172.17.0.1" "IPv4" false])])
    nothing_installed posix_join parse stringify.

Definition with_config (content : string) (answers : list string) : State :=
  mkState {[ configPath := File content ]} answers [].

Definition first_run (answers : list string) : State := mkState ∅ answers [].

End Scenario.


(** ** The build directory *)

(** What a loop gives when it is run with a bound on its turns. *)
Inductive Bounded (A : Type) : Type :=
| Done (a : A)
| OutOfFuel.

Arguments Done {A} a.
Arguments OutOfFuel {A}.

Section BuildDirectory.

Variable h : Host.
(** [dirname] of the module [path] *)
Variable path_dirname : string -> string.
(** [resolve(__dirname)], the directory of the script, and [resolve('/')] *)
Variables scriptDir rootDir : string.

(** The [while] loop of [findDockerBuildDirectory]: [Done (Some dir)] is
    [return dir], [Done None] is the end of the loop. *)
Fixpoint walk_up (fuel : nat) (currentDir : string) : M (Bounded (option string)) :=
  match fuel with
  | O => ret OutOfFuel
  | S fuel' =>
      if negb (String.eqb currentDir rootDir)
      then
        let dockerfilePath := join h [currentDir; "Dockerfile"] in
        do ex <- existsSync dockerfilePath;
        if ex then ret (Done (Some currentDir))
        else
          let parentDir := path_dirname currentDir in
          if String.eqb parentDir currentDir
          then ret (Done None)
          else walk_up fuel' parentDir
      else ret (Done None)
  end.

Definition findDockerBuildDirectory (fuel : nat) : M (Bounded (option string)) :=
  do walked <- walk_up fuel scriptDir;
  match walked with
  | Done (Some dir) => ret (Done (Some dir))
  | Done None =>
      let rootDockerfilePath := join h [rootDir; "Dockerfile"] in
      do ex <- existsSync rootDockerfilePath;
      if ex then ret (Done (Some rootDir)) else ret (Done None)
  | OutOfFuel => ret OutOfFuel
  end.

End BuildDirectory.

(** ** More reference notions *)

(** The directory and those above it: [n] of them, the nearest first. *)
Fixpoint ancestors (dirname : string -> string) (n : nat) (dir : string)
  : list string :=
  match n with
  | O => []
  | S n' => dir :: ancestors dirname n' (dirname dir)
  end.

(** The directory holds a [Dockerfile]. *)
Definition has_dockerfile (h : Host) (files : gmap string FsNode) (dir : string)
  : bool :=
  bool_decide (is_Some (files !! path_join h [dir; "Dockerfile"])).

(** The lookup utility of the platform. *)
Definition lookup_command (h : Host) : string :=
  if String.eqb (getOS h) "windows" then "where" else "which".

(** The subprocesses that validate the sockets [paths], one after the other. *)
Definition socket_probe_events (h : Host) (paths : list string) : list Event :=
  flat_map (fun socketPath =>
              [EvSpawn (lookup_command h) ["docker"];
               EvSpawn (runtime_command h) (docker_version_args socketPath)])
    paths.

Definition is_spawn (ev : Event) : bool :=
  match ev with EvSpawn _ _ => true | _ => false end.

(** A computation whose result and subprocesses are fixed by the host: it
    returns, runs subprocesses and does nothing else. *)
Definition steady {A} (m : M A) : Prop :=
  exists a evs,
    forallb is_spawn evs = true /\ forall st, m st = (Ret a, logged evs st).

(** The same, for a computation that may throw. *)
Definition steady_or_throws {A} (m : M A) : Prop :=
  exists o evs,
    forallb is_spawn evs = true /\ (forall st, m st = (o, logged evs st))
    /\ ((exists a, o = Ret a) \/ (exists e, o = Throw e)).


(** Four pieces of one to three decimal digits, separated by dots. *)
Definition is_digit_group (l : list ascii) : bool :=
  negb (Nat.eqb (length l) 0) && (length l <=? 3)%nat && forallb is_digit l.

Definition is_loose_quad (s : string) : bool :=
  match split_dots_from (chars s) [] with
  | [a; b; c; d] =>
      is_digit_group a && is_digit_group b && is_digit_group c && is_digit_group d
  | _ => false
  end.

(** The object that [saveConfig] writes for a configuration. *)
Definition configData (config : JSValue) : JSValue :=
  JObj [("dockerSocket", get_prop config "dockerSocket");
        ("sshKeysDir", get_prop config "sshKeysDir");
        ("externalIP", get_prop config "externalIP")].

(** The files written, in a trace. *)
Definition writes (evs : list Event) : list (string * string) :=
  flat_map (fun ev => match ev with
                      | EvWriteFile path content => [(path, content)]
                      | _ => []
                      end) evs.

(** The questions asked, in a trace. *)
Definition questions (evs : list Event) : list string :=
  flat_map (fun ev => match ev with
                      | EvQuestion promptText => [promptText]
                      | _ => []
                      end) evs.

(** The places where [getSshDirectory] looks, in its order. *)
Definition ssh_candidates (h : Host) : list string :=
  path_join h [os_homedir h; ".ssh"]
  :: (if String.eqb (getOS h) "windows"
      then [path_join h [env_or h "USERPROFILE" (os_homedir h); ".ssh"];
            path_join h [env_or h "HOMEDRIVE" "C:";
                         env_or h "HOMEPATH" ("\Users\" +:+ env_text h "USERNAME");
                         ".ssh"];
            path_join h ["C:"; "Users"; env_or h "USERNAME" "user"; ".ssh"]]
      else []).

(** Something exists at the path. *)
Definition exists_in (files : gmap string FsNode) (path : string) : bool :=
  bool_decide (is_Some (files !! path)).

(** The capturing group with which a regular expression ends, if it ends
    with one. *)
Fixpoint final_group (r : regex) : option regex :=
  match r with
  | Group g => Some g
  | Seq _ b => final_group b
  | _ => None
  end.

(** A computation that asks at most [n] questions. *)
Definition asks_at_most {A} (n : nat) (m : M A) : Prop :=
  forall st, exists asked,
    questions (trace (snd (m st))) = questions (trace st) ++ asked
    /\ length asked <= n.

(** ** More hosts for the scenarios *)

Module Fixture.

(** [dirname] of POSIX, as Node.js computes it: the index of the last slash
    that has a name after it, looked for from the end down to index 1. *)
Fixpoint last_slash (l : list ascii) (i : nat) (matchedSlash : bool) : option nat :=
  match i with
  | O => None
  | S i' =>
      if Ascii.eqb (nth i l "/"%char) "/"
      then if negb matchedSlash then Some i else last_slash l i' matchedSlash
      else last_slash l i' false
  end.

Definition posix_dirname (path : string) : string :=
  let l := chars path in
  match l with
  | [] => "."
  | c :: _ =>
      let hasRoot := Ascii.eqb c "/" in
      match last_slash l (length l - 1) true with
      | None => if hasRoot then "/" else "."
      | Some e => if hasRoot && Nat.eqb e 1 then "//" else text (firstn e l)
      end
  end.

(** The script is installed four directories below the root; its package
    directory holds the [Dockerfile]. *)
Definition installed : State :=
  mkState {[ "/usr/lib/cde/Dockerfile" := File "FROM node";
             "/usr/lib/cde/src/index.js" := File "" ]} [] [].

(** A machine with an SSH directory in the home of the user. *)
Definition with_ssh (answers : list string) : State :=
  mkState {[ "/home/dev/.ssh" := Directory ]} answers [].

(** A machine with the loopback interface only and no command installed. *)
Definition isolated : Host :=
  mkHost "linux" 1000 ∅ "/home/dev"
    (Some [("lo", [mkAddr "127.0.0.1" "IPv4" true])])
    Scenario.nothing_installed Scenario.posix_join Scenario.parse Scenario.stringify.

(** [hostname -I] lists a loopback address first. *)
Definition hostname_lists (cmd : string) (args : list string)
  : JSError + SpawnSyncReturns :=
  if String.eqb cmd "hostname" && bool_decide (args = ["-I"])
  then Scenario.exited 0 "127.0.0.1 10.0.0.7 "
  else Scenario.nothing_installed cmd args.

End Fixture.

(** * Properties *)

(** ** The monad *)

Lemma logged_nil st : logged [] st = st.
Proof. destruct st; unfold logged; simpl; by rewrite app_nil_r. Qed.

Lemma logged_logged evs evs' st : logged evs' (logged evs st) = logged (evs ++ evs') st.
Proof. unfold logged; simpl; by rewrite app_assoc. Qed.

Lemma spawnSync_run h cmd args st :
  spawnSync h cmd args st =
    (match child_spawnSync h cmd args with
     | inl e => Throw e
     | inr r => Ret r
     end, logged [EvSpawn cmd args] st).
Proof.
  unfold spawnSync, bind, emit, logged; simpl.
  by destruct (child_spawnSync h cmd args).
Qed.

(** ** Socket discovery *)

Lemma commandExists_run h command st :
  commandExists h command st =
    (Ret (command_found h command),
     logged [EvSpawn (if String.eqb (getOS h) "windows" then "where" else "which")
               [command]] st).
Proof.
  unfold commandExists, command_found, spawn_ok, try_catch, bind, ret.
  destruct (String.eqb (getOS h) "windows"); rewrite spawnSync_run;
    by destruct (child_spawnSync h _ _).
Qed.

Lemma checkDockerSocketAccess_run h socketPath st :
  checkDockerSocketAccess h socketPath st =
    (Ret (round_trip_succeeded h socketPath),
     logged [EvSpawn (if String.eqb (getOS h) "windows" then "where" else "which")
               ["docker"];
             EvSpawn (runtime_command h) (docker_version_args socketPath)] st).
Proof.
  unfold checkDockerSocketAccess, round_trip_succeeded, runtime_command, spawn_ok,
    try_catch, bind.
  rewrite commandExists_run, spawnSync_run, logged_logged; simpl.
  destruct (child_spawnSync h _ (docker_version_args socketPath)) as [e|r]; [done|].
  by destruct (status_is_0 r).
Qed.

Lemma first_accessible_run h paths st :
  exists r evs,
    first_accessible h paths st = (Ret r, logged evs st) /\
    match r with
    | Some p =>
        In p paths /\ round_trip_succeeded h p = true /\
        last evs = Some (EvSpawn (runtime_command h) (docker_version_args p))
    | None => forall p, In p paths -> round_trip_succeeded h p = false
    end.
Proof.
  revert st; induction paths as [|p paths IH]; intros st.
  - exists None, []. rewrite logged_nil. split; [done|]. by intros p [].
  - simpl. unfold bind. rewrite checkDockerSocketAccess_run.
    destruct (round_trip_succeeded h p) eqn:Hp.
    + eexists (Some p), _. split; [reflexivity|]. simpl. auto.
    + destruct (IH (logged [EvSpawn (if String.eqb (getOS h) "windows"
                                      then "where" else "which") ["docker"];
                            EvSpawn (runtime_command h) (docker_version_args p)] st))
        as (r & evs & Hrun & Hr).
      rewrite Hrun, logged_logged. eexists r, _. split; [reflexivity|].
      destruct r as [q|].
      * destruct Hr as (Hin & Hq & Hlast). repeat split; [by right|done|].
        destruct evs as [|e evs]; [done|].
        change (last ([EvSpawn (if String.eqb (getOS h) "windows"
                                then "where" else "which") ["docker"];
                       EvSpawn (runtime_command h) (docker_version_args p)]
                      ++ e :: evs) = Some (EvSpawn (runtime_command h) (docker_version_args q))).
        by rewrite last_app, Hlast.
      * intros q [<-|Hq]; auto.
Qed.

(** C3. Socket discovery always returns, without an error.  A path that it
    returns is one of the candidates, the version query through this very
    path exited with status zero, and that query is the last subprocess the
    discovery ran; when it returns [null], the query failed for every
    candidate.  The files and the terminal input are left as they were. *)
Theorem getDockerSocketPath_validated (h : Host) (st : State) :
  exists r evs,
    getDockerSocketPath h st = (Ret r, logged evs st) /\
    match r with
    | Some p =>
        In p (defaultSocketPaths h) /\ round_trip_succeeded h p = true /\
        last evs = Some (EvSpawn (runtime_command h) (docker_version_args p))
    | None => forall p, In p (defaultSocketPaths h) -> round_trip_succeeded h p = false
    end.
Proof. apply first_accessible_run. Qed.

(** C6, as the claim words it, fails: on the Linux machine of the scenarios
    the list built by the script is not the claimed one; its second entry is
    [/run/docker.sock], and the path with the user ID comes fifth, after the
    desktop path and the package-manager path. *)
Lemma claimed_socket_candidates_wrong :
  let h := Scenario.linux Scenario.nothing_installed in
  defaultSocketPaths h <> claimed_socket_candidates h /\
  defaultSocketPaths h !! 1%nat = Some "/run/docker.sock" /\
  defaultSocketPaths h !! 2%nat = Some "/home/dev/.docker/desktop/docker.sock" /\
  defaultSocketPaths h !! 3%nat = Some "/usr/local/var/run/docker.sock" /\
  defaultSocketPaths h !! 4%nat = Some "/run/user/1000/docker.sock".
Proof. split; [by vm_compute|]. repeat split. Qed.

(** C6, amended.  The candidates are, in this order, [/var/run/docker.sock],
    [/run/docker.sock], the desktop socket under the home directory and
    [/usr/local/var/run/docker.sock]; unless the platform is Windows, they
    are followed by the docker socket and then the podman socket under
    [/run/user/<uid>]. *)
Theorem defaultSocketPaths_order (h : Host) :
  defaultSocketPaths h =
    ["/var/run/docker.sock";
     "/run/docker.sock";
     path_join h [os_homedir h; ".docker/desktop/docker.sock"];
     "/usr/local/var/run/docker.sock"]
    ++ (if bool_decide (getOS h = "windows") then []
        else ["/run/user/" +:+ pretty (process_getuid h) +:+ "/docker.sock";
              "/run/user/" +:+ pretty (process_getuid h) +:+ "/podman/podman.sock"]).
Proof.
  unfold defaultSocketPaths, join, homedir.
  destruct (String.eqb_spec (getOS h) "windows") as [H|H].
  - by rewrite bool_decide_eq_true_2.
  - by rewrite bool_decide_eq_false_2.
Qed.

(** ** The liveness check *)

Lemma isIPAvailable_run h ip st :
  isIPAvailable h ip st =
    match ip with
    | JStr s =>
        if regex_test ipRegex s
        then (Ret (spawn_ok h "ping" (pingArgs h s)),
              logged [EvSpawn "ping" (pingArgs h s)] st)
        else (Ret false, st)
    | _ => (Ret false, st)
    end.
Proof.
  unfold isIPAvailable, try_catch, bind, ret, spawn_ok.
  destruct ip as [| |b|r|s|l|l]; try done.
  destruct (String.eqb_spec s "") as [->|Hs]; simpl.
  - by vm_compute.
  - destruct (String.eqb_spec s "") as [|_]; [done|]. simpl.
    destruct (regex_test ipRegex s); simpl; [|done].
    rewrite spawnSync_run. by destruct (child_spawnSync h _ _).
Qed.

(** C1.  On a Linux machine where some host answers the echo request sent
    to 10.0.0.5 (the probe exits with status zero), the liveness check
    answers [true] for 10.0.0.5, and [main], started on a saved
    configuration with this address, asks no question and hands the address
    over unchanged; the answer that the user is ready to type is not read. *)
Theorem address_in_use_is_accepted :
  let h := Scenario.linux Scenario.answers_ping in
  let st := Scenario.with_config
              (Scenario.json_text
                 "{'dockerSocket': '/var/run/docker.sock', 'externalIP': '10.0.0.5'}")
              ["10.0.0.9"] in
  let ping := EvSpawn "ping" ["-c"; "1"; "-W"; "1"; "10.0.0.5"] in
  isIPAvailable h (JStr "10.0.0.5") st = (Ret true, logged [ping] st) /\
  main h st =
    (Ret (JObj [("dockerSocket", JStr "/var/run/docker.sock");
                ("externalIP", JStr "10.0.0.5")]),
     logged [ping] st).
Proof. split; by vm_compute. Qed.

(** C2.  On the same machine, a saved configuration that has [externalIP]
    but no [dockerSocket] skips the gathering branch: no question about the
    socket is asked, nothing is read from the terminal, and the
    configuration handed to the launch has no [dockerSocket]. *)
Theorem missing_socket_is_not_gathered :
  let h := Scenario.linux Scenario.answers_ping in
  let st := Scenario.with_config
              (Scenario.json_text "{'externalIP': '10.0.0.5'}")
              ["/var/run/docker.sock"] in
  let ping := EvSpawn "ping" ["-c"; "1"; "-W"; "1"; "10.0.0.5"] in
  needs_gathering (JObj [("externalIP", JStr "10.0.0.5")]) = false /\
  main h st = (Ret (JObj [("externalIP", JStr "10.0.0.5")]), logged [ping] st) /\
  get_prop (JObj [("externalIP", JStr "10.0.0.5")]) "dockerSocket" = JUndefined.
Proof. repeat split; by vm_compute. Qed.

(** ** The command-line fallback *)

(** C5.  On a Linux machine where [hostname -I] cannot be run and
    [ip route get 1.1.1.1] reports the source address 169.254.10.20, the
    fallback returns 169.254.10.20: the result of the second command is not
    checked against the excluded prefixes. *)
Theorem ip_route_source_is_not_filtered :
  let h := Scenario.linux Scenario.route_from_link_local in
  let st := Scenario.first_run [] in
  not_excluded "169.254.10.20" = false /\
  getExternalIPCommandLine h st =
    (Ret (Some "169.254.10.20"),
     logged [EvSpawn "hostname" ["-I"]; EvSpawn "ip" ["route"; "get"; "1.1.1.1"]] st).
Proof. split; by vm_compute. Qed.

(** ** The configuration loader *)

(** C4.  With [path] the configuration file's path: when no file is there
    the loader returns [null] and raises nothing; when the file's text is
    not JSON it throws an error whose message ends with [path]; when the
    text is JSON but not a plain object (an array, a scalar or [null]) it
    throws the error that asks for a JSON object. *)
Theorem getConfig_cases (h : Host) (st : State) :
  let path := path_join h [os_homedir h; ".dexilion.cde.conf"] in
  (fs st !! path = None -> getConfig h st = (Ret JNull, st)) /\
  (forall content,
     fs st !! path = Some (File content) ->
     JSON_parse h content = None ->
     getConfig h st =
       (Throw (Error ("Invalid JSON in configuration file: " +:+ path)), st)) /\
  (forall content v,
     fs st !! path = Some (File content) ->
     JSON_parse h content = Some v ->
     is_plain_object v = false ->
     getConfig h st =
       (Throw (Error "Configuration file must contain a JSON object"), st)).
Proof.
  unfold getConfig, try_catch, bind, existsSync, readFileSync, join, homedir,
    configFileName; simpl.
  repeat split.
  - intros ->. rewrite bool_decide_eq_false_2; [done|]. by intros [x Hx].
  - intros content Hfile Hparse.
    rewrite bool_decide_eq_true_2; [|by eexists].
    by rewrite Hfile, Hparse.
  - intros content v Hfile Hparse Hv.
    rewrite bool_decide_eq_true_2; [|by eexists].
    rewrite Hfile, Hparse. unfold ret. by destruct v.
Qed.

Lemma getConfig_cases_witness :
  let h := Scenario.linux Scenario.nothing_installed in
  getConfig h (Scenario.first_run []) = (Ret JNull, Scenario.first_run []) /\
  getConfig h (Scenario.with_config "{" []) =
    (Throw (Error "Invalid JSON in configuration file: /home/dev/.dexilion.cde.conf"),
     Scenario.with_config "{" []) /\
  getConfig h (Scenario.with_config "[1, 2]" []) =
    (Throw (Error "Configuration file must contain a JSON object"),
     Scenario.with_config "[1, 2]" []) /\
  getConfig h (Scenario.with_config "42" []) =
    (Throw (Error "Configuration file must contain a JSON object"),
     Scenario.with_config "42" []) /\
  getConfig h (Scenario.with_config "null" []) =
    (Throw (Error "Configuration file must contain a JSON object"),
     Scenario.with_config "null" []).
Proof.
  intros h.
  split; [|split; [|split; [|split]]].
  - apply (proj1 (getConfig_cases h (Scenario.first_run []))). reflexivity.
  - apply (proj1 (proj2 (getConfig_cases h (Scenario.with_config "{" []))) "{");
      reflexivity.
  - apply (proj2 (proj2 (getConfig_cases h (Scenario.with_config "[1, 2]" [])))
             "[1, 2]" (JArr [JNum "1"; JNum "2"])); reflexivity.
  - apply (proj2 (proj2 (getConfig_cases h (Scenario.with_config "42" [])))
             "42" (JNum "42")); reflexivity.
  - apply (proj2 (proj2 (getConfig_cases h (Scenario.with_config "null" [])))
             "null" JNull); reflexivity.
Defined.

(** ** Frame conditions of the probes *)

Lemma probe_ret {A} (a : A) : probe (ret a).
Proof. intros st. exists a, []. by rewrite logged_nil. Qed.

Lemma quiet_ret {A} (a : A) : quiet (ret a).
Proof. intros st. exists (Ret a), []. rewrite logged_nil. eauto. Qed.

Lemma quiet_throw {A} (e : JSError) : quiet (@throw A e).
Proof. intros st. exists (Throw e), []. rewrite logged_nil. eauto. Qed.

Lemma probe_quiet {A} (m : M A) : probe m -> quiet m.
Proof. intros H st. destruct (H st) as (a & evs & ->). eauto 6. Qed.

Lemma probe_bind {A B} (m : M A) (f : A -> M B) :
  probe m -> (forall a, probe (f a)) -> probe (bind m f).
Proof.
  intros Hm Hf st. unfold bind.
  destruct (Hm st) as (a & evs & ->).
  destruct (Hf a (logged evs st)) as (b & evs' & ->).
  rewrite logged_logged. eauto.
Qed.

Lemma quiet_bind {A B} (m : M A) (f : A -> M B) :
  quiet m -> (forall a, quiet (f a)) -> quiet (bind m f).
Proof.
  intros Hm Hf st. unfold bind.
  destruct (Hm st) as (o & evs & -> & [[a ->]|[e ->]]).
  - destruct (Hf a (logged evs st)) as (o & evs' & -> & Ho).
    rewrite logged_logged. eauto.
  - eauto 6.
Qed.

Lemma probe_try_catch {A} (body : M A) (handler : JSError -> M A) :
  quiet body -> (forall e, probe (handler e)) -> probe (try_catch body handler).
Proof.
  intros Hb Hh st. unfold try_catch.
  destruct (Hb st) as (o & evs & -> & [[a ->]|[e ->]]).
  - eauto.
  - destruct (Hh e (logged evs st)) as (a & evs' & ->).
    rewrite logged_logged. eauto.
Qed.

Lemma quiet_spawnSync h cmd args : quiet (spawnSync h cmd args).
Proof.
  intros st. rewrite spawnSync_run.
  destruct (child_spawnSync h cmd args); eauto 6.
Qed.

Lemma probe_keeps_files {A} (m : M A) : probe m -> keeps_files m.
Proof. intros H st. by destruct (H st) as (a & evs & ->). Qed.

Lemma keeps_files_ret {A} (a : A) : keeps_files (ret a).
Proof. done. Qed.

Lemma keeps_files_bind {A B} (m : M A) (f : A -> M B) :
  keeps_files m -> (forall a, keeps_files (f a)) -> keeps_files (bind m f).
Proof.
  intros Hm Hf st. unfold bind. specialize (Hm st).
  destruct (m st) as [[a|e|c|] st']; simpl in *; try done.
  by rewrite Hf.
Qed.

Lemma keeps_files_promptUser question defaultValue :
  keeps_files (promptUser question defaultValue).
Proof.
  intros st. unfold promptUser, bind, emit; simpl. by destruct (stdin st).
Qed.

Create HintDb frame.
#[local] Hint Resolve probe_ret quiet_ret quiet_throw probe_bind quiet_bind
  probe_try_catch quiet_spawnSync keeps_files_ret keeps_files_bind
  keeps_files_promptUser : frame.

Lemma probe_isIPAvailable h ip : probe (isIPAvailable h ip).
Proof.
  intros st. rewrite isIPAvailable_run.
  destruct ip as [| |b|r|s|l|l]; try (eexists _, []; by rewrite logged_nil).
  destruct (regex_test ipRegex s); [eauto|]. eexists _, []; by rewrite logged_nil.
Qed.

Lemma probe_try_command h c : probe (try_command h c).
Proof.
  destruct c as [cmd args]. unfold try_command.
  apply probe_try_catch; [|auto with frame].
  apply quiet_bind; [auto with frame|]. intros result.
  destruct (has_output result); [|auto with frame].
  destruct (_ && _); [auto with frame|].
  destruct (String.eqb cmd "ip"); auto with frame.
Qed.

Lemma probe_try_commands h cs : probe (try_commands h cs).
Proof.
  induction cs as [|c cs IH]; simpl; [auto with frame|].
  apply probe_bind; [apply probe_try_command|].
  intros [ip|]; auto with frame.
Qed.

Lemma probe_getExternalIPCommandLine h : probe (getExternalIPCommandLine h).
Proof.
  unfold getExternalIPCommandLine.
  apply probe_try_catch; [|auto with frame].
  destruct (String.eqb (getOS h) "windows").
  - apply quiet_bind; [auto with frame|]. intros result.
    destruct (has_output result); auto with frame.
  - apply probe_quiet, probe_try_commands.
Qed.

Lemma probe_getExternalIP h : probe (getExternalIP h).
Proof.
  unfold getExternalIP.
  apply probe_try_catch; [|intros; apply probe_getExternalIPCommandLine].
  apply quiet_bind.
  - unfold networkInterfaces. destruct (os_networkInterfaces h); auto with frame.
  - intros nets. destruct (first_pass nets); [auto with frame|].
    destruct (second_pass nets); [auto with frame|].
    apply probe_quiet, probe_getExternalIPCommandLine.
Qed.

(** ** Revalidation of the address *)

Lemma keeps_files_revalidate h config : keeps_files (revalidate h config).
Proof.
  unfold revalidate.
  apply keeps_files_bind; [apply probe_keeps_files, probe_isIPAvailable|].
  intros available. destruct available; simpl; [auto with frame|].
  apply keeps_files_bind; [apply probe_keeps_files, probe_getExternalIP|].
  intros found. auto with frame.
Qed.

(** C9.  Let the part of [main] that loads, gathers and saves end with the
    configuration [config] in the state [st1].  Then the files at the end
    of [main] are the files of [st1]; and when the liveness check rejects
    the address and the user types a replacement, the configuration handed
    to the launch is [config] with that replacement as its [externalIP]:
    the correction is used for the run and is not written to disk. *)
Theorem correction_is_not_persisted (h : Host) (st st1 : State) (config : JSValue) :
  load_or_gather h st = (Ret config, st1) ->
  fs (snd (main h st)) = fs st1 /\
  forall answer rest,
    fst (isIPAvailable h (get_prop config "externalIP") st1) = Ret false ->
    stdin st1 = answer :: rest ->
    trim answer <> "" ->
    fst (main h st) = Ret (set_prop config "externalIP" (JStr (trim answer))).
Proof.
  intros Hload. unfold main. unfold bind at 1 2. rewrite Hload. split.
  - apply keeps_files_revalidate.
  - intros answer rest Hcheck Hin Hanswer. unfold revalidate, bind.
    destruct (probe_isIPAvailable h (get_prop config "externalIP") st1)
      as (available & evs & Hrun).
    rewrite Hrun in Hcheck |- *. simpl in Hcheck. injection Hcheck as ->. simpl.
    destruct (probe_getExternalIP h (logged evs st1)) as (found & evs' & ->).
    unfold promptUser, bind, emit; simpl. rewrite Hin. simpl.
    unfold js_or at 1. simpl.
    destruct (String.eqb_spec (trim answer) "") as [|_]; done.
Qed.

Lemma correction_is_not_persisted_witness :
  let h := Scenario.linux Scenario.docker_running in
  let st := Scenario.first_run [""; ""; "/nowhere"; "10.0.0.9"] in
  let saved :=
    JObj [("dockerSocket", JStr "/var/run/docker.sock");
          ("externalIP", JStr "192.168.1.42")] in
  fs (snd (load_or_gather h st)) !! Scenario.configPath
    = Some (File (Scenario.stringify saved)) /\
  fs (snd (main h st)) = fs (snd (load_or_gather h st)) /\
  fst (main h st) =
    Ret (JObj [("dockerSocket", JStr "/var/run/docker.sock");
               ("externalIP", JStr "10.0.0.9")]).
Proof.
  intros h st saved.
  assert (Hload : load_or_gather h st = (Ret saved, snd (load_or_gather h st)))
    by (by vm_compute).
  destruct (correction_is_not_persisted h st _ saved Hload) as [Hfiles Hanswer].
  split; [by vm_compute|]. split; [exact Hfiles|].
  apply (Hanswer "10.0.0.9" []); by vm_compute.
Defined.

(** ** The SSH directory typed by the user *)

Lemma first_existing_run paths files :
  exists r, forall i t,
    first_existing paths (mkState files i t) = (Ret r, mkState files i t).
Proof.
  induction paths as [|p paths [r IH]]; [by exists None|].
  simpl. unfold bind, existsSync; simpl.
  destruct (bool_decide (is_Some (files !! p))); [by exists (Some p)|].
  by exists r.
Qed.

Lemma getSshDirectory_run h files :
  exists r, forall i t,
    getSshDirectory h (mkState files i t) = (Ret r, mkState files i t).
Proof.
  unfold getSshDirectory, bind, existsSync; cbn -[first_existing].
  destruct (bool_decide (is_Some (files !! _))); [by eexists|].
  destruct (String.eqb (getOS h) "windows"); [|by exists None].
  apply first_existing_run.
Qed.

(** C10.  Let the search for an SSH directory find none, and let the user
    answer the question about it with a text that, once trimmed, is not
    empty and names nothing that exists.  Then this step of [main] raises
    nothing and returns the configuration as it was, so that [sshKeysDir]
    stays unset if it was unset; the step and the saving after it end
    exactly as when the user types nothing; and the object that is saved
    carries the [sshKeysDir] the configuration had before. *)
Theorem missing_ssh_directory_is_dropped
    (h : Host) (config : JSValue) (st : State) (answer : string) (rest : list string) :
  fst (getSshDirectory h st) = Ret None ->
  stdin st = answer :: rest ->
  trim answer <> "" ->
  fs st !! trim answer = None ->
  let question := EvQuestion "SSH Keys directory (leave empty to skip): " in
  let and_save :=
    fun config => do config <- gather_ssh h config; run saveConfig h config; ret config in
  let typed_nothing := mkState (fs st) ("" :: rest) (trace st) in
  let path := path_join h [os_homedir h; ".dexilion.cde.conf"] in
  let saved :=
    JObj [("dockerSocket", get_prop config "dockerSocket");
          ("sshKeysDir", get_prop config "sshKeysDir");
          ("externalIP", get_prop config "externalIP")] in
  gather_ssh h config st = (Ret config, mkState (fs st) rest (trace st ++ [question])) /\
  and_save config st = and_save config typed_nothing /\
  (fs st !! path <> Some Directory ->
   and_save config st =
     (Ret config,
      mkState (<[path := File (JSON_stringify h saved)]> (fs st)) rest
        (trace st ++ [question; EvWriteFile path (JSON_stringify h saved)]))).
Proof.
  intros Hnone Hin Hanswer Hmissing question and_save typed_nothing path saved.
  destruct st as [files input events]; simpl in *. subst input.
  destruct (getSshDirectory_run h files) as [r Hr].
  rewrite Hr in Hnone; simpl in Hnone. injection Hnone as ->.
  assert (Hstep : forall line,
            trim line = "" \/ (trim line <> "" /\ files !! trim line = None) ->
            gather_ssh h config (mkState files (line :: rest) events)
            = (Ret config, mkState files rest (events ++ [question]))).
  { intros line Hline. unfold gather_ssh, bind. rewrite Hr.
    unfold promptUser, bind, emit, js_or; cbn -[trim].
    destruct Hline as [->|[Hline Hfile]]; [done|].
    unfold existsSync; cbn -[trim].
    do 2 (rewrite (proj2 (String.eqb_neq _ _) Hline); cbn -[trim]).
    rewrite Hfile, bool_decide_eq_false_2; [done|]. by intros [x Hx]. }
  assert (Hgather := Hstep answer (or_intror (conj Hanswer Hmissing))).
  assert (Hempty := Hstep "" (or_introl eq_refl)).
  split; [exact Hgather|]. split.
  - unfold and_save, typed_nothing, bind. by rewrite Hgather, Hempty.
  - intros Hdir. unfold and_save, bind. rewrite Hgather.
    unfold saveConfig, writeFileSync, join, homedir, configFileName; simpl.
    fold path saved.
    destruct (files !! path) as [[content|]|] eqn:Hpath; try done.
    all: by rewrite <- app_assoc.
Qed.

Lemma missing_ssh_directory_is_dropped_witness :
  let h := Scenario.linux Scenario.docker_running in
  let config :=
    JObj [("dockerSocket", JStr "/var/run/docker.sock");
          ("externalIP", JStr "192.168.1.42")] in
  let question := EvQuestion "SSH Keys directory (leave empty to skip): " in
  gather_ssh h config (Scenario.first_run [" /nowhere "; "10.0.0.9"])
  = (Ret config, mkState ∅ ["10.0.0.9"] [question]) /\
  get_prop config "sshKeysDir" = JUndefined.
Proof.
  intros h config question. split; [|reflexivity].
  apply (missing_ssh_directory_is_dropped h config
           (Scenario.first_run [" /nowhere "; "10.0.0.9"]) " /nowhere " ["10.0.0.9"]);
    by vm_compute.
Defined.


(** ** The scan of the network interfaces *)

Section FirstReturn.

Context {A B : Type} (body : A -> option B).

Lemma first_return_Some l y :
  first_return body l = Some y -> exists x, In x l /\ body x = Some y.
Proof.
  induction l as [|x l IH]; simpl; [done|].
  destruct (body x) as [y'|] eqn:Hx.
  - intros [= ->]. eauto.
  - intros H. destruct (IH H) as (x' & Hin & Hx'). eauto.
Qed.

Lemma first_return_None l :
  first_return body l = None <-> forall x, In x l -> body x = None.
Proof.
  induction l as [|x l IH]; simpl; [by split|].
  destruct (body x) as [y|] eqn:Hx; split.
  - done.
  - intros H. specialize (H x (or_introl eq_refl)). congruence.
  - intros H x' [<-|Hin]; [done|]. by apply IH.
  - intros H. apply IH. auto.
Qed.

Lemma first_return_is_Some l x y :
  In x l -> body x = Some y -> exists y', first_return body l = Some y'.
Proof.
  intros Hin Hx. destruct (first_return body l) as [y'|] eqn:H; [eauto|].
  rewrite first_return_None in H. rewrite (H x Hin) in Hx. done.
Qed.

End FirstReturn.

Lemma first_usable_Some net ip :
  first_usable net = Some ip ->
  exists a, In a net /\ usable a = true /\ address a = ip.
Proof.
  unfold first_usable. destruct (List.find usable net) as [a|] eqn:Hfind; [|done].
  intros [= <-]. apply find_some in Hfind. exists a. tauto.
Qed.

Lemma first_usable_None net :
  first_usable net = None <-> forall a, In a net -> usable a = false.
Proof.
  unfold first_usable. split.
  - destruct (List.find usable net) as [a|] eqn:Hfind; [done|].
    intros _. exact (find_none usable net Hfind).
  - intros H. destruct (List.find usable net) as [a|] eqn:Hf; [|done].
    apply find_some in Hf. destruct Hf as [Hin Hu]. by rewrite (H a Hin) in Hu.
Qed.

Lemma nets_get_In nets name net :
  nets_get nets name = Some net -> In (name, net) nets.
Proof.
  induction nets as [|[n x] nets IH]; simpl; [done|].
  destruct (String.eqb_spec name n) as [->|_]; [|auto].
  intros [= ->]. by left.
Qed.

Lemma In_nets_get nets name net :
  NoDup (Object_keys nets) -> In (name, net) nets -> nets_get nets name = Some net.
Proof.
  induction nets as [|[n x] nets IH]; simpl; [done|].
  intros Hnd. apply NoDup_cons in Hnd as [Hn Hnd].
  intros [[= -> ->]|Hin].
  - by rewrite String.eqb_refl.
  - destruct (String.eqb_spec name n) as [->|_]; [|auto].
    destruct Hn. apply list_elem_of_In. apply (in_map fst) in Hin. exact Hin.
Qed.

Lemma find_append {A} (f : A -> bool) (l1 l2 : list A) :
  List.find f (l1 ++ l2) =
    match List.find f l1 with
    | Some x => Some x
    | None => List.find f l2
    end.
Proof.
  induction l1 as [|x l1 IH]; simpl; [done|]. by destruct (f x).
Qed.

Lemma second_pass_scan nets l :
  (forall name net, In (name, net) l -> nets_get nets name = Some net) ->
  first_return
    (fun name => match nets_get nets name with
                 | Some net => first_usable net
                 | None => None
                 end) (Object_keys l)
  = option_map address (List.find usable (flat_map snd l)).
Proof.
  induction l as [|[n x] l IH]; simpl; [done|].
  intros H. rewrite (H n x (or_introl eq_refl)), find_append.
  unfold first_usable at 1.
  destruct (List.find usable x); [done|]. simpl. apply IH. auto.
Qed.

Lemma getExternalIP_first_pass h st nets ip :
  os_networkInterfaces h = Some nets ->
  first_pass nets = Some ip ->
  getExternalIP h st = (Ret (Some ip), st).
Proof.
  intros Hn Hp. unfold getExternalIP, try_catch, bind, networkInterfaces.
  rewrite Hn. unfold ret at 1. by rewrite Hp.
Qed.

Lemma getExternalIP_second_pass h st nets :
  os_networkInterfaces h = Some nets ->
  first_pass nets = None ->
  getExternalIP h st =
    match second_pass nets with
    | Some ip => (Ret (Some ip), st)
    | None => getExternalIPCommandLine h st
    end.
Proof.
  intros Hn Hp. unfold getExternalIP, try_catch, bind, networkInterfaces.
  rewrite Hn. unfold ret at 1. rewrite Hp. destruct (second_pass nets); [done|].
  by destruct (probe_getExternalIPCommandLine h st) as (r & evs & ->).
Qed.

(** C8.  Let the interfaces be [nets], with pairwise different names.  If
    an interface with a priority name has a non-internal IPv4 address, the
    address returned is such an address of such an interface, wherever the
    other interfaces stand in the enumeration.  If no interface with a
    priority name has one, the address returned is the first non-internal
    IPv4 address of all interfaces in the order of enumeration; when there is
    none at all, the command-line fallback decides. *)
Theorem priority_interface_is_preferred
    (h : Host) (st : State) (nets : list (string * list NetworkInterfaceInfo)) :
  os_networkInterfaces h = Some nets ->
  NoDup (Object_keys nets) ->
  (forall name net a,
     In (name, net) nets -> priority_interface name = true ->
     In a net -> usable a = true ->
     exists name' net' a',
       In (name', net') nets /\ priority_interface name' = true /\
       In a' net' /\ usable a' = true /\
       getExternalIP h st = (Ret (Some (address a')), st)) /\
  ((forall name net a,
      In (name, net) nets -> priority_interface name = true ->
      In a net -> usable a = false) ->
   getExternalIP h st =
     match List.find usable (flat_map snd nets) with
     | Some a => (Ret (Some (address a)), st)
     | None => getExternalIPCommandLine h st
     end).
Proof.
  intros Hnets Hnd. split.
  - intros name net a Hin Hprio Ha Hu.
    apply existsb_exists in Hprio as (priority & Hp & Hname).
    assert (exists ip, first_pass nets = Some ip) as [ip Hip].
    { destruct (first_usable net) as [ip|] eqn:Hfu.
      2: { rewrite first_usable_None in Hfu. rewrite (Hfu a Ha) in Hu. done. }
      assert (exists ip', first_return
                (fun name => if is_priority_name priority name
                             then match nets_get nets name with
                                  | Some net => first_usable net
                                  | None => None
                                  end
                             else None)
                (Object_keys nets) = Some ip') as [ip' Hip'].
      { apply first_return_is_Some with name ip.
        - apply (in_map fst) in Hin. exact Hin.
        - by rewrite Hname, (In_nets_get _ _ _ Hnd Hin). }
      unfold first_pass.
      exact (first_return_is_Some _ interfacePriority priority ip' Hp Hip'). }
    pose proof Hip as Hscan. unfold first_pass in Hscan.
    apply first_return_Some in Hscan as (priority' & Hp' & Hscan).
    apply first_return_Some in Hscan as (name' & Hkey & Hscan).
    destruct (is_priority_name priority' name') eqn:Hname'; [|done].
    destruct (nets_get nets name') as [net'|] eqn:Hget; [|done].
    apply first_usable_Some in Hscan as (a' & Ha' & Hu' & <-).
    exists name', net', a'. repeat split; try done.
    + by apply nets_get_In.
    + apply existsb_exists. eauto.
    + by apply getExternalIP_first_pass with nets.
  - intros Hnone.
    assert (first_pass nets = None) as Hfirst.
    { unfold first_pass. apply first_return_None. intros priority Hp.
      apply first_return_None. intros name Hkey.
      destruct (is_priority_name priority name) eqn:Hname; [|done].
      destruct (nets_get nets name) as [net|] eqn:Hget; [|done].
      apply first_usable_None. intros a Ha.
      apply (Hnone name net a); [by apply nets_get_In| |done].
      apply existsb_exists. eauto. }
    rewrite (getExternalIP_second_pass h st nets Hnets Hfirst).
    unfold second_pass. rewrite second_pass_scan.
    + by destruct (List.find usable (flat_map snd nets)).
    + intros name net Hin. by apply In_nets_get.
Qed.

Lemma priority_interface_is_preferred_witness :
  let st := Scenario.first_run [] in
  (exists name' net' a',
     In (name', net') Scenario.interfaces /\ priority_interface name' = true /\
     In a' net' /\ usable a' = true /\
     getExternalIP (Scenario.linux Scenario.nothing_installed) st
     = (Ret (Some (address a')), st)) /\
  getExternalIP Scenario.bridge_only st = (Ret (Some "172.17.0.1"), st).
Proof.
  intros st. split.
  - assert (Hnd : NoDup (Object_keys Scenario.interfaces))
      by (apply (bool_decide_unpack _); by vm_compute).
    apply (proj1 (priority_interface_is_preferred
                    (Scenario.linux Scenario.nothing_installed) st
                    Scenario.interfaces eq_refl Hnd)
             "eth0" [mkAddr "fe80::1" "IPv6" false; mkAddr "192.168.1.42" "IPv4" false]
             (mkAddr "192.168.1.42" "IPv4" false)).
    + simpl. auto.
    + reflexivity.
    + simpl. auto.
    + reflexivity.
  - assert (Hnd : NoDup ["lo"; "docker0"])
      by (apply (bool_decide_unpack _); by vm_compute).
    apply (proj2 (priority_interface_is_preferred Scenario.bridge_only st
                    [("lo", [mkAddr "127.0.0.1" "IPv4" true]);
                     ("docker0", [mkAddr "172.17.0.1" "IPv4" false])] eq_refl Hnd)).
    intros name net a [[= <- <-]|[[= <- <-]|[]]] Hprio; by vm_compute in Hprio.
Defined.

(** ** The matcher finds what the regular expression denotes *)

Section MatcherCorrect.

Context {R : Type}.
Implicit Types (k : nat -> list ascii -> option string -> option R).

Lemma star_sound cl (k : nat -> list ascii -> option R) s : forall pos x,
  star_loop cl k pos s = Some x ->
  exists s1 s2,
    s = s1 ++ s2 /\ forallb (cmatch cl) s1 = true /\ k (pos + length s1) s2 = Some x.
Proof.
  induction s as [|c s IH]; intros pos x; simpl.
  - intros H. exists [], []. by rewrite Nat.add_0_r.
  - destruct (cmatch cl c) eqn:Hc.
    2: { intros H. exists [], (c :: s). by rewrite Nat.add_0_r. }
    destruct (star_loop cl k (S pos) s) as [y|] eqn:Hstar.
    + intros [= ->]. destruct (IH _ _ Hstar) as (s1 & s2 & -> & Hall & Hk).
      exists (c :: s1), s2. simpl. rewrite Hc, Hall, Nat.add_succ_r. done.
    + intros H. exists [], (c :: s). by rewrite Nat.add_0_r.
Qed.

Lemma rmatch_sound r : forall pos s cap k x,
  rmatch r pos s cap k = Some x ->
  exists s1 s2 cap',
    s = s1 ++ s2 /\ matches r pos s1 s2 /\ k (pos + length s1) s2 cap' = Some x.
Proof.
  induction r as [|cl|a IHa b IHb|a IHa b IHb|cl|r IH| |]; intros pos s cap k x.
  - simpl. intros H. exists [], s, cap. by rewrite Nat.add_0_r.
  - simpl. destruct s as [|c s]; [done|].
    destruct (cmatch cl c) eqn:Hc; [|done].
    intros H. exists [c], s, cap. rewrite Nat.add_1_r. eauto.
  - simpl. intros H.
    apply IHa in H as (s1 & s' & cap1 & -> & Ha & H).
    apply IHb in H as (s2 & s3 & cap2 & -> & Hb & H).
    exists (s1 ++ s2), s3, cap2. rewrite <- app_assoc, length_app, Nat.add_assoc.
    eauto 8.
  - simpl. destruct (rmatch a pos s cap k) as [y|] eqn:Hleft.
    + intros [= ->]. apply IHa in Hleft as (s1 & s2 & cap' & ? & ? & ?).
      exists s1, s2, cap'. auto.
    + intros H. apply IHb in H as (s1 & s2 & cap' & ? & ? & ?).
      exists s1, s2, cap'. auto.
  - simpl. intros H. apply star_sound in H as (s1 & s2 & ? & ? & ?).
    exists s1, s2, cap. auto.
  - simpl. intros H. apply IH in H as (s1 & s2 & cap' & ? & ? & ?).
    eexists s1, s2, _. eauto.
  - simpl. destruct (Nat.eqb_spec pos 0) as [->|]; [|done].
    intros H. exists [], s, cap. auto.
  - simpl. destruct s; [|done].
    intros H. exists [], [], cap. by rewrite Nat.add_0_r.
Qed.

Lemma star_complete cl (k : nat -> list ascii -> option R) s2 s1 : forall pos,
  forallb (cmatch cl) s1 = true ->
  is_Some (k (pos + length s1) s2) ->
  is_Some (star_loop cl k pos (s1 ++ s2)).
Proof.
  induction s1 as [|c s1 IH]; intros pos; simpl.
  - rewrite Nat.add_0_r. intros _ Hk.
    destruct s2 as [|c s2]; [done|]. simpl.
    destruct (cmatch cl c); [|done].
    by destruct (star_loop cl k (S pos) s2).
  - intros Hall Hk. apply andb_true_iff in Hall as [-> Hall].
    rewrite Nat.add_succ_r in Hk.
    by destruct (IH (S pos) Hall Hk) as [y ->].
Qed.

Lemma rmatch_complete r : forall pos s1 s2 cap k,
  matches r pos s1 s2 ->
  (forall cap', is_Some (k (pos + length s1) s2 cap')) ->
  is_Some (rmatch r pos (s1 ++ s2) cap k).
Proof.
  induction r as [|cl|a IHa b IHb|a IHa b IHb|cl|r IH| |];
    intros pos s1 s2 cap k Hm Hk.
  - simpl in *. subst s1. rewrite Nat.add_0_r in Hk. apply Hk.
  - destruct Hm as (c & -> & Hc). simpl. rewrite Hc.
    rewrite Nat.add_1_r in Hk. apply Hk.
  - destruct Hm as (x & y & -> & Ha & Hb). simpl. rewrite <- app_assoc.
    apply IHa; [done|]. intros cap'. apply IHb; [done|].
    intros cap''. rewrite <- Nat.add_assoc, <- length_app. apply Hk.
  - simpl. destruct (rmatch a pos (s1 ++ s2) cap k) eqn:Hleft; [done|].
    destruct Hm as [Ha|Hb].
    + destruct (IHa pos s1 s2 cap k Ha Hk) as [y Hy]. congruence.
    + by apply IHb.
  - simpl. apply star_complete; [done|apply Hk].
  - simpl. apply IH; [done|]. intros cap'. apply Hk.
  - destruct Hm as [-> ->]. simpl. apply Hk.
  - destruct Hm as [-> ->]. simpl. rewrite Nat.add_0_r in Hk. apply Hk.
Qed.

End MatcherCorrect.

Lemma search_after_start r s : forall pos, search (Seq Bol r) (S pos) s = None.
Proof. induction s as [|c s IH]; intros pos; simpl; [done|apply IH]. Qed.

(** A regular expression that starts with [^] is tried at index 0 only. *)
Lemma regex_test_anchored r s :
  regex_test (Seq Bol r) s = true <->
  exists s1 s2, chars s = s1 ++ s2 /\ matches r 0 s1 s2.
Proof.
  unfold regex_test. split.
  - destruct (search (Seq Bol r) 0 (chars s)) as [m|] eqn:H; [|done]. intros _.
    destruct (chars s) as [|c l]; simpl in H.
    + destruct (rmatch r 0 [] None _) as [m'|] eqn:Hm; [|done].
      apply rmatch_sound in Hm as (s1 & s2 & _ & ? & ? & _). eauto.
    + rewrite search_after_start in H.
      destruct (rmatch r 0 (c :: l) None _) as [m'|] eqn:Hm; [|done].
      apply rmatch_sound in Hm as (s1 & s2 & _ & ? & ? & _). eauto.
  - intros (s1 & s2 & Hs & Hm).
    assert (is_Some (rmatch (Seq Bol r) 0 (s1 ++ s2) None
                       (fun pos' s' cap => Some (pos', s', cap)))) as [m Hrun].
    { apply rmatch_complete; [|by eauto].
      exists [], s1. simpl. auto. }
    rewrite Hs. destruct (s1 ++ s2); simpl in *; by rewrite Hrun.
Qed.

(** ** The loop over the matches of a global regular expression ends *)

Lemma search_sound r s : forall pos pos' s' cap,
  search r pos s = Some (pos', s', cap) ->
  exists skipped s1,
    s = skipped ++ s1 ++ s' /\ matches r (pos + length skipped) s1 s'.
Proof.
  induction s as [|c s IH]; intros pos pos' s' cap; simpl.
  - destruct (rmatch r pos [] None _) as [m|] eqn:Hm; [|done].
    intros [= ->]. apply rmatch_sound in Hm as (s1 & s2 & cap' & Hs & Hm & [= _ <- _]).
    exists [], s1. simpl. by rewrite Nat.add_0_r.
  - destruct (rmatch r pos (c :: s) None _) as [m|] eqn:Hm.
    + intros [= ->].
      apply rmatch_sound in Hm as (s1 & s2 & cap' & Hs & Hm & [= _ <- _]).
      exists [], s1. simpl. by rewrite Nat.add_0_r.
    + intros H. apply IH in H as (skipped & s1 & -> & H).
      exists (c :: skipped), s1. simpl. by rewrite Nat.add_succ_r.
Qed.

(** When no match is empty, the loop has ended by itself before the fuel
    is used up: more fuel changes nothing. *)
Lemma exec_loop_fuel r keep :
  (forall pos s1 s2, matches r pos s1 s2 -> s1 <> []) ->
  forall fuel fuel' s pos,
    length s < fuel -> length s < fuel' ->
    exec_loop fuel r pos s keep = exec_loop fuel' r pos s keep.
Proof.
  intros Hne fuel.
  induction fuel as [|fuel IH]; intros fuel' s pos Hf Hf'; [lia|].
  destruct fuel' as [|fuel']; [lia|]. simpl.
  destruct (search r pos s) as [[[pos' s'] cap]|] eqn:Hs; [|done].
  destruct (keep (default "" cap)); [done|].
  apply search_sound in Hs as (skipped & s1 & -> & Hm).
  apply Hne in Hm. rewrite !length_app in Hf, Hf'.
  destruct s1 as [|c s1]; [done|]. simpl in Hf, Hf'.
  apply IH; lia.
Qed.

Lemma chars_length s : length (chars s) = String.length s.
Proof. induction s as [|c s IH]; simpl; [done|]. by rewrite <- IH. Qed.

Lemma first_kept_match_inet s keep fuel :
  String.length s < fuel ->
  exec_loop fuel inetRegex 0 (chars s) keep = first_kept_match inetRegex s keep.
Proof.
  intros Hf. unfold first_kept_match. apply exec_loop_fuel.
  - unfold inetRegex. cbn [matches Lit chars list_ascii_of_string].
    intros pos s1 s2 (x & y & -> & (x1 & x2 & -> & (c & -> & _) & _) & _). done.
  - by rewrite chars_length.
  - rewrite chars_length. lia.
Qed.

Lemma first_kept_match_ipconfig s keep fuel :
  String.length s < fuel ->
  exec_loop fuel ipconfigRegex 0 (chars s) keep
  = first_kept_match ipconfigRegex s keep.
Proof.
  intros Hf. unfold first_kept_match. apply exec_loop_fuel.
  - unfold ipconfigRegex. cbn [matches Lit chars list_ascii_of_string].
    intros pos s1 s2 (x & y & -> & (x1 & x2 & -> & (c & -> & _) & _) & _). done.
  - by rewrite chars_length.
  - rewrite chars_length. lia.
Qed.

(** ** The format of an address *)

Lemma cmatch_char x c : cmatch (CChar x) c = true <-> c = x.
Proof. simpl. apply Ascii.eqb_eq. Qed.

Lemma cmatch_range lo hi c :
  cmatch (CRange lo hi) c = true <-> (code lo <= code c /\ code c <= code hi)%N.
Proof. simpl. rewrite andb_true_iff, !N.leb_le. done. Qed.

Lemma code_inj c x : code c = code x -> c = x.
Proof.
  unfold code. intros H.
  by rewrite <- (ascii_N_embedding c), <- (ascii_N_embedding x), H.
Qed.

Lemma is_digit_range c : is_digit c = true <-> (48 <= code c /\ code c <= 57)%N.
Proof. unfold is_digit. rewrite andb_true_iff, !N.leb_le. done. Qed.

(** The octets, by their length. *)
Lemma is_octet_cases o :
  is_octet o = true <->
  (exists c1, o = [c1] /\ is_digit c1 = true) \/
  (exists c1 c2, o = [c1; c2] /\ is_digit c1 = true /\ is_digit c2 = true) \/
  (exists c1 c2 c3,
     o = [c1; c2; c3] /\ is_digit c1 = true /\ is_digit c2 = true
     /\ is_digit c3 = true
     /\ (100 * (code c1 - 48) + 10 * (code c2 - 48) + (code c3 - 48) <= 255)%N).
Proof.
  unfold is_octet, decimal_value, digit_value.
  destruct o as [|c1 [|c2 [|c3 [|c4 o]]]]; simpl.
  - split; [done|]. by intros [(?&?&_)|[(?&?&?&_)|(?&?&?&?&_)]].
  - rewrite andb_true_r, andb_true_iff, N.leb_le, is_digit_range. split.
    + intros [H _]. left. exists c1. by rewrite is_digit_range.
    + intros [(c & [= <-] & H)|[(?&?&?&_)|(?&?&?&?&_)]]; try done.
      apply is_digit_range in H. split; [done|lia].
  - rewrite andb_true_r, !andb_true_iff, N.leb_le, !is_digit_range. split.
    + intros [[H1 H2] _]. right; left. exists c1, c2. by rewrite !is_digit_range.
    + intros [(?&?&_)|[(x & y & [= <- <-] & H1 & H2)|(?&?&?&?&_)]]; try done.
      apply is_digit_range in H1, H2. split; [done|lia].
  - rewrite andb_true_r, !andb_true_iff, N.leb_le, !is_digit_range. split.
    + intros [[H1 [H2 H3]] H]. right; right. exists c1, c2, c3.
      rewrite !is_digit_range. repeat split; try tauto. lia.
    + intros [(?&?&_)|[(?&?&?&_)|(x & y & z & [= <- <- <-] & H1 & H2 & H3 & H)]];
        try done.
      apply is_digit_range in H1, H2, H3. split; [done|lia].
  - split; [done|]. by intros [(?&?&_)|[(?&?&?&_)|(?&?&?&?&_)]].
Qed.

Lemma code_digits :
  code "0" = 48%N /\ code "1" = 49%N /\ code "2" = 50%N /\ code "4" = 52%N
  /\ code "5" = 53%N /\ code "9" = 57%N.
Proof. by vm_compute. Qed.

Ltac code_digits :=
  destruct code_digits as (?C0 & ?C1 & ?C2 & ?C4 & ?C5 & ?C9);
  repeat match goal with
         | C : code (Ascii _ _ _ _ _ _ _ _) = _ |- _ => rewrite ?C in *; clear C
         end.

Ltac break_match :=
  repeat match goal with
         | H : _ /\ _ |- _ => destruct H
         | H : exists _, _ |- _ => destruct H
         | H : _ \/ _ |- _ => destruct H
         | H : cmatch (CChar _) _ = true |- _ => apply cmatch_char in H
         | H : cmatch (CRange _ _) _ = true |- _ => apply cmatch_range in H
         | H : cmatch digit _ = true |- _ => apply cmatch_range in H
         end; subst.

Lemma octet_is_octet pos o rest : matches octet pos o rest -> is_octet o = true.
Proof.
  unfold octet, Opt. cbn [matches]. intros H. break_match.
  all: apply is_octet_cases; simpl.
  all: first
         [ left; eexists; split; [reflexivity|]
         | right; left; eexists _, _; split; [reflexivity|]
         | right; right; eexists _, _, _; split; [reflexivity|] ].
  all: rewrite ?is_digit_range; code_digits; lia.
Qed.

Lemma is_octet_octet pos o rest : is_octet o = true -> matches octet pos o rest.
Proof.
  intros H. apply is_octet_cases in H.
  destruct H as [(c1 & -> & H1)|[(c1 & c2 & -> & H1 & H2)
                                |(c1 & c2 & c3 & -> & H1 & H2 & H3 & H)]];
    rewrite is_digit_range in *; unfold octet, Opt, digit; cbn [matches].
  - right; right. exists [], [c1]. repeat split; [by right|].
    exists [c1], []. repeat split; [|by right].
    exists c1. rewrite cmatch_range. code_digits. by split.
  - right; right. exists [], [c1; c2]. repeat split; [by right|].
    exists [c1], [c2]. repeat split.
    + exists c1. rewrite cmatch_range. code_digits. by split.
    + left. exists c2. rewrite cmatch_range. code_digits. by split.
  - assert (code c1 <= 49 \/ code c1 = 50 /\ code c2 <= 52
            \/ code c1 = 50 /\ code c2 = 53 /\ code c3 <= 53)%N
      as [Hc|[[Hc1 Hc2]|(Hc1 & Hc2 & Hc3)]] by lia.
    + right; right. exists [c1], [c2; c3]. repeat split.
      * left. exists c1. rewrite cmatch_range. code_digits. split; [done|lia].
      * exists [c2], [c3]. repeat split.
        -- exists c2. rewrite cmatch_range. code_digits. by split.
        -- left. exists c3. rewrite cmatch_range. code_digits. by split.
    + right; left. exists [c1], [c2; c3]. repeat split.
      * exists c1. rewrite cmatch_char. split; [done|]. by apply code_inj.
      * exists [c2], [c3]. repeat split.
        -- exists c2. rewrite cmatch_range. code_digits. split; [done|lia].
        -- exists c3. rewrite cmatch_range. code_digits. by split.
    + left. exists [c1], [c2; c3]. repeat split.
      * exists c1. rewrite cmatch_char. split; [done|]. by apply code_inj.
      * exists [c2], [c3]. repeat split.
        -- exists c2. rewrite cmatch_char. split; [done|]. by apply code_inj.
        -- exists c3. rewrite cmatch_range. code_digits. split; [done|lia].
Qed.

Lemma matches_octet pos o rest : matches octet pos o rest <-> is_octet o = true.
Proof. split; [apply octet_is_octet|apply is_octet_octet]. Qed.

(** An octet has no dot in it. *)
Lemma is_octet_no_dot o : is_octet o = true -> forallb is_digit o = true.
Proof.
  unfold is_octet. rewrite !andb_true_iff. tauto.
Qed.

Lemma split_dots_join l : forall cur,
  join_dots (split_dots_from l cur) = rev cur ++ l.
Proof.
  induction l as [|c l IH]; intros cur; simpl.
  - by rewrite app_nil_r.
  - destruct (Ascii.eqb_spec c ".") as [->|Hc].
    + specialize (IH []). simpl in IH.
      destruct (split_dots_from l []) eqn:Hs; simpl in *.
      * by destruct l; simpl in Hs; [|destruct (Ascii.eqb _ _)].
      * by rewrite IH.
    + rewrite IH. simpl. by rewrite <- app_assoc.
Qed.

Lemma split_dots_digits o : forall cur,
  forallb is_digit o = true -> split_dots_from o cur = [rev cur ++ o].
Proof.
  induction o as [|c o IH]; intros cur; simpl.
  - by rewrite app_nil_r.
  - rewrite andb_true_iff. intros [Hc Ho].
    destruct (Ascii.eqb_spec c ".") as [->|_]; [done|].
    rewrite IH; [|done]. simpl. by rewrite <- app_assoc.
Qed.

Lemma split_dots_piece o l : forall cur,
  forallb is_digit o = true ->
  split_dots_from (o ++ "."%char :: l) cur = (rev cur ++ o) :: split_dots_from l [].
Proof.
  induction o as [|c o IH]; intros cur; simpl.
  - by rewrite app_nil_r.
  - rewrite andb_true_iff. intros [Hc Ho].
    destruct (Ascii.eqb_spec c ".") as [->|_]; [done|].
    rewrite IH; [|done]. simpl. by rewrite <- app_assoc.
Qed.

Lemma is_dotted_quad_iff s :
  is_dotted_quad s = true <->
  exists a b c d,
    chars s = a ++ "."%char :: b ++ "."%char :: c ++ "."%char :: d
    /\ is_octet a = true /\ is_octet b = true
    /\ is_octet c = true /\ is_octet d = true.
Proof.
  unfold is_dotted_quad. split.
  - pose proof (split_dots_join (chars s) []) as Hjoin.
    destruct (split_dots_from (chars s) []) as [|a [|b [|c [|d [|e l]]]]]; try done.
    rewrite !andb_true_iff. intros [[[Ha Hb] Hc] Hd].
    exists a, b, c, d. simpl in Hjoin. by rewrite <- Hjoin.
  - intros (a & b & c & d & -> & Ha & Hb & Hc & Hd).
    rewrite !split_dots_piece, split_dots_digits by by apply is_octet_no_dot.
    simpl. by rewrite Ha, Hb, Hc, Hd.
Qed.

Lemma matches_ipRegex s1 s2 :
  matches (Seq (Times 3 (Seq octet (Chr (CChar ".")))) (Seq octet Eol)) 0 s1 s2 <->
  s2 = [] /\
  exists a b c d,
    s1 = a ++ "."%char :: b ++ "."%char :: c ++ "."%char :: d
    /\ is_octet a = true /\ is_octet b = true
    /\ is_octet c = true /\ is_octet d = true.
Proof.
  cbn [matches Times]. split.
  - intros H. break_match.
    repeat match goal with
           | H : matches octet _ _ _ |- _ => apply matches_octet in H
           end.
    split; [done|].
    match goal with
    | |- exists _ _ _ _,
           ((?a ++ _) ++ (?b ++ _) ++ (?c ++ _) ++ []) ++ ?d ++ [] = _ /\ _ =>
        exists a, b, c, d
    end.
    split; [|done]. by rewrite !app_nil_r, <- !app_assoc.
  - intros (-> & a & b & c & d & -> & Ha & Hb & Hc & Hd).
    exists (a ++ "."%char :: b ++ "."%char :: c ++ ["."%char]), d.
    split; [by repeat (rewrite <- app_assoc; simpl)|]. split.
    + exists (a ++ ["."%char]), (b ++ "."%char :: c ++ ["."%char]).
      split; [by repeat (rewrite <- app_assoc; simpl)|]. split.
      * exists a, ["."%char]. repeat split; [by apply matches_octet|by exists "."%char].
      * exists (b ++ ["."%char]), (c ++ ["."%char]).
        split; [by repeat (rewrite <- app_assoc; simpl)|]. split.
        -- exists b, ["."%char].
           repeat split; [by apply matches_octet|by exists "."%char].
        -- exists (c ++ ["."%char]), []. split; [by rewrite app_nil_r|]. split; [|done].
           exists c, ["."%char].
           repeat split; [by apply matches_octet|by exists "."%char].
    + exists d, []. split; [by rewrite app_nil_r|]. split; [|done].
      by apply matches_octet.
Qed.

Lemma ipRegex_is_dotted_quad s : regex_test ipRegex s = is_dotted_quad s.
Proof.
  apply eq_true_iff_eq. unfold ipRegex.
  rewrite regex_test_anchored, is_dotted_quad_iff. split.
  - intros (s1 & s2 & Hs & Hm). apply matches_ipRegex in Hm as [-> Hm].
    by rewrite app_nil_r in Hs; subst s1.
  - intros H. exists (chars s), []. split; [by rewrite app_nil_r|].
    by apply matches_ipRegex.
Qed.

(** C7.  The format check of the liveness check accepts exactly the dotted
    quads: four pieces separated by dots, each of one to three decimal
    digits and of a value from 0 to 255.  For a string that is not one, the
    liveness check answers [false] and starts no subprocess; for a dotted
    quad it goes on to the echo request. *)
Theorem address_format_validation (h : Host) (st : State) (s : string) :
  regex_test ipRegex s = is_dotted_quad s /\
  (is_dotted_quad s = false -> isIPAvailable h (JStr s) st = (Ret false, st)) /\
  (is_dotted_quad s = true ->
   isIPAvailable h (JStr s) st =
     (Ret (spawn_ok h "ping" (pingArgs h s)),
      logged [EvSpawn "ping" (pingArgs h s)] st)).
Proof.
  rewrite isIPAvailable_run, ipRegex_is_dotted_quad.
  split; [done|]. split; by intros ->.
Qed.

Lemma address_format_validation_witness :
  let h := Scenario.linux Scenario.answers_ping in
  let st := Scenario.first_run [] in
  isIPAvailable h (JStr "999.1.1.1") st = (Ret false, st) /\
  isIPAvailable h (JStr "1.2.3") st = (Ret false, st) /\
  isIPAvailable h (JStr "abc.def.1.1") st = (Ret false, st) /\
  regex_test ipRegex "192.168.1.42" = true /\
  isIPAvailable h (JStr "192.168.1.42") st =
    (Ret false, logged [EvSpawn "ping" ["-c"; "1"; "-W"; "1"; "192.168.1.42"]] st).
Proof.
  intros h st. split; [|split; [|split; [|split]]].
  - apply (proj1 (proj2 (address_format_validation h st "999.1.1.1"))). reflexivity.
  - apply (proj1 (proj2 (address_format_validation h st "1.2.3"))). reflexivity.
  - apply (proj1 (proj2 (address_format_validation h st "abc.def.1.1"))). reflexivity.
  - rewrite (proj1 (address_format_validation h st "192.168.1.42")). reflexivity.
  - apply (proj2 (proj2 (address_format_validation h st "192.168.1.42"))). reflexivity.
Defined.

(** ** Probes are fixed by the host *)

Lemma steady_ret {A} (a : A) : steady (ret a).
Proof. exists a, []. split; [done|]. intros st. by rewrite logged_nil. Qed.

Lemma steady_or_throws_ret {A} (a : A) : steady_or_throws (ret a).
Proof.
  exists (Ret a), []. split; [done|]. split; [|eauto].
  intros st. by rewrite logged_nil.
Qed.

Lemma steady_or_throws_throw {A} (e : JSError) : steady_or_throws (@throw A e).
Proof.
  exists (Throw e), []. split; [done|]. split; [|eauto].
  intros st. by rewrite logged_nil.
Qed.

Lemma steady_may_throw {A} (m : M A) : steady m -> steady_or_throws m.
Proof. intros (a & evs & Hevs & Hm). exists (Ret a), evs. eauto 6. Qed.

Lemma steady_bind {A B} (m : M A) (f : A -> M B) :
  steady m -> (forall a, steady (f a)) -> steady (bind m f).
Proof.
  intros (a & evs & Hevs & Hm) Hf. destruct (Hf a) as (b & evs' & Hevs' & Hfa).
  exists b, (evs ++ evs'). split; [by rewrite forallb_app, Hevs, Hevs'|].
  intros st. unfold bind. by rewrite Hm, Hfa, logged_logged.
Qed.

Lemma steady_or_throws_bind {A B} (m : M A) (f : A -> M B) :
  steady_or_throws m -> (forall a, steady_or_throws (f a)) ->
  steady_or_throws (bind m f).
Proof.
  intros (o & evs & Hevs & Hm & [[a ->]|[e ->]]) Hf.
  - destruct (Hf a) as (o & evs' & Hevs' & Hfa & Ho).
    exists o, (evs ++ evs'). split; [by rewrite forallb_app, Hevs, Hevs'|].
    split; [|done]. intros st. unfold bind. by rewrite Hm, Hfa, logged_logged.
  - exists (Throw e), evs. split; [done|]. split; [|eauto].
    intros st. unfold bind. by rewrite Hm.
Qed.

Lemma steady_try_catch {A} (body : M A) (handler : JSError -> M A) :
  steady_or_throws body -> (forall e, steady (handler e)) ->
  steady (try_catch body handler).
Proof.
  intros (o & evs & Hevs & Hm & [[a ->]|[e ->]]) Hh.
  - exists a, evs. split; [done|]. intros st. unfold try_catch. by rewrite Hm.
  - destruct (Hh e) as (a & evs' & Hevs' & Hhe).
    exists a, (evs ++ evs'). split; [by rewrite forallb_app, Hevs, Hevs'|].
    intros st. unfold try_catch. by rewrite Hm, Hhe, logged_logged.
Qed.

Lemma steady_or_throws_spawnSync h cmd args :
  steady_or_throws (spawnSync h cmd args).
Proof.
  exists (match child_spawnSync h cmd args with
          | inl e => Throw e
          | inr r => Ret r
          end), [EvSpawn cmd args].
  split; [done|]. split; [apply spawnSync_run|].
  destruct (child_spawnSync h cmd args); eauto.
Qed.

Create HintDb steady.
#[local] Hint Resolve steady_ret steady_or_throws_ret steady_or_throws_throw
  steady_bind steady_or_throws_bind steady_try_catch steady_or_throws_spawnSync
  : steady.

Lemma steady_commandExists h command : steady (commandExists h command).
Proof.
  unfold commandExists. apply steady_try_catch; [|auto with steady].
  apply steady_or_throws_bind; [|auto with steady].
  destruct (String.eqb (getOS h) "windows"); auto with steady.
Qed.

Lemma steady_checkDockerSocketAccess h socketPath :
  steady (checkDockerSocketAccess h socketPath).
Proof.
  unfold checkDockerSocketAccess. apply steady_try_catch; [|auto with steady].
  apply steady_or_throws_bind; [apply steady_may_throw, steady_commandExists|].
  intros ce. apply steady_or_throws_bind; [auto with steady|].
  intros result. destruct (status_is_0 result); auto with steady.
Qed.

Lemma steady_first_accessible h paths : steady (first_accessible h paths).
Proof.
  induction paths as [|p paths IH]; simpl; [auto with steady|].
  apply steady_bind; [apply steady_checkDockerSocketAccess|].
  intros [|]; auto with steady.
Qed.

Lemma steady_isIPAvailable h ip : steady (isIPAvailable h ip).
Proof.
  unfold isIPAvailable. apply steady_try_catch; [|auto with steady].
  destruct ip as [| |b|r|s|l|l]; auto with steady.
  destruct (negb (truthy (JStr s))); [auto with steady|].
  destruct (negb (regex_test ipRegex s)); auto with steady.
Qed.

Lemma steady_try_command h c : steady (try_command h c).
Proof.
  destruct c as [cmd args]. unfold try_command.
  apply steady_try_catch; [|auto with steady].
  apply steady_or_throws_bind; [auto with steady|]. intros result.
  destruct (has_output result); [|auto with steady].
  destruct (_ && _); [auto with steady|].
  destruct (String.eqb cmd "ip"); auto with steady.
Qed.

Lemma steady_try_commands h cs : steady (try_commands h cs).
Proof.
  induction cs as [|c cs IH]; simpl; [auto with steady|].
  apply steady_bind; [apply steady_try_command|].
  intros [ip|]; auto with steady.
Qed.

Lemma steady_getExternalIPCommandLine h : steady (getExternalIPCommandLine h).
Proof.
  unfold getExternalIPCommandLine.
  apply steady_try_catch; [|auto with steady].
  destruct (String.eqb (getOS h) "windows").
  - apply steady_or_throws_bind; [auto with steady|]. intros result.
    destruct (has_output result); auto with steady.
  - apply steady_may_throw, steady_try_commands.
Qed.

Lemma steady_getExternalIP h : steady (getExternalIP h).
Proof.
  unfold getExternalIP.
  apply steady_try_catch; [|intros; apply steady_getExternalIPCommandLine].
  apply steady_or_throws_bind.
  - unfold networkInterfaces. destruct (os_networkInterfaces h); auto with steady.
  - intros nets. destruct (first_pass nets); [auto with steady|].
    destruct (second_pass nets); [auto with steady|].
    apply steady_may_throw, steady_getExternalIPCommandLine.
Qed.

(** X2.  Every probe of the host returns: an exception of a subprocess call
    or of the enumeration of the interfaces never leaves it.  Its result and
    the subprocesses it runs are fixed by the host, whatever the files and
    the terminal input are, and it changes nothing but the trace, to which
    it adds subprocess events only. *)
Theorem probes_absorb_failures (h : Host) :
  (forall command, steady (commandExists h command)) /\
  (forall socketPath, steady (checkDockerSocketAccess h socketPath)) /\
  steady (getDockerSocketPath h) /\
  steady (getExternalIPCommandLine h) /\
  steady (getExternalIP h) /\
  (forall ip, steady (isIPAvailable h ip)).
Proof.
  split; [apply steady_commandExists|].
  split; [apply steady_checkDockerSocketAccess|].
  split; [apply steady_first_accessible|].
  split; [apply steady_getExternalIPCommandLine|].
  split; [apply steady_getExternalIP|apply steady_isIPAvailable].
Qed.

(** ** The order of the socket candidates *)

Lemma first_accessible_first h paths :
  (exists before p after,
     paths = before ++ p :: after /\
     (forall q, In q before -> round_trip_succeeded h q = false) /\
     round_trip_succeeded h p = true /\
     forall st, first_accessible h paths st
                = (Ret (Some p), logged (socket_probe_events h (before ++ [p])) st))
  \/
  ((forall q, In q paths -> round_trip_succeeded h q = false) /\
   forall st, first_accessible h paths st
              = (Ret None, logged (socket_probe_events h paths) st)).
Proof.
  induction paths as [|p paths IH].
  - right. split; [by intros q []|]. intros st. simpl. by rewrite logged_nil.
  - destruct (round_trip_succeeded h p) eqn:Hp.
    + left. exists [], p, paths. split; [done|]. split; [by intros q []|].
      split; [done|]. intros st. simpl. unfold bind.
      by rewrite checkDockerSocketAccess_run, Hp.
    + destruct IH as [(before & q & after & -> & Hbefore & Hq & Hrun)|[Hall Hrun]].
      * left. exists (p :: before), q, after. split; [done|].
        split; [by intros x [<-|Hx]; auto|]. split; [done|].
        intros st. simpl. unfold bind.
        rewrite checkDockerSocketAccess_run, Hp, Hrun, logged_logged. done.
      * right. split; [by intros x [<-|Hx]; auto|].
        intros st. simpl. unfold bind.
        rewrite checkDockerSocketAccess_run, Hp, Hrun, logged_logged. done.
Qed.

(** X1.  Socket discovery tries the candidates in the order of the list and
    stops at the first one whose version query succeeds: every candidate
    before the returned one has failed, no candidate after it is tried, and
    the subprocesses run are the lookup of [docker] and the version query,
    once for each candidate tried. *)
Theorem getDockerSocketPath_first_valid (h : Host) :
  (exists before p after,
     defaultSocketPaths h = before ++ p :: after /\
     (forall q, In q before -> round_trip_succeeded h q = false) /\
     round_trip_succeeded h p = true /\
     forall st, getDockerSocketPath h st
                = (Ret (Some p), logged (socket_probe_events h (before ++ [p])) st))
  \/
  ((forall q, In q (defaultSocketPaths h) -> round_trip_succeeded h q = false) /\
   forall st, getDockerSocketPath h st
              = (Ret None, logged (socket_probe_events h (defaultSocketPaths h)) st)).
Proof. apply first_accessible_first. Qed.

(** ** The SSH directory *)

Lemma first_existing_find paths st :
  first_existing paths st = (Ret (List.find (exists_in (fs st)) paths), st).
Proof.
  induction paths as [|p paths IH]; simpl; [done|].
  unfold bind, existsSync, exists_in in *. simpl.
  destruct (bool_decide (is_Some (fs st !! p))); [done|]. apply IH.
Qed.

Lemma getSshDirectory_find h st :
  getSshDirectory h st
  = (Ret (List.find (exists_in (fs st)) (ssh_candidates h)), st).
Proof.
  unfold getSshDirectory, ssh_candidates, bind, existsSync, join, homedir.
  cbn -[first_existing List.find]. unfold List.find at 1. fold (@List.find string).
  unfold exists_in at 1.
  destruct (bool_decide (is_Some (fs st !! path_join h [os_homedir h; ".ssh"])));
    [done|].
  destruct (String.eqb (getOS h) "windows"); [|done].
  apply first_existing_find.
Qed.

(** X3.  The search for the SSH directory returns the first candidate of the
    platform at which something exists: the home-relative path first and,
    on Windows only, the three paths derived from the environment after it.
    It raises nothing and changes nothing. *)
Theorem getSshDirectory_first_existing (h : Host) (st : State) :
  getSshDirectory h st
  = (Ret (List.find (exists_in (fs st)) (ssh_candidates h)), st).
Proof. apply getSshDirectory_find. Qed.

(** ** The scan of the interfaces and the fallback *)

(** X4.  With the interfaces that the host enumerates: if some interface has
    a non-internal IPv4 address, such an address is returned and no
    subprocess is run; if none has, the answer is that of the command-line
    fallback.  The fallback also answers when the enumeration throws. *)
Theorem getExternalIP_fallback_condition (h : Host) (st : State) :
  match os_networkInterfaces h with
  | Some nets =>
      ((exists name net a,
          In name (Object_keys nets) /\ nets_get nets name = Some net /\
          In a net /\ usable a = true) ->
       exists name' net' a',
         nets_get nets name' = Some net' /\ In a' net' /\ usable a' = true /\
         getExternalIP h st = (Ret (Some (address a')), st)) /\
      ((forall name net a,
          In name (Object_keys nets) -> nets_get nets name = Some net ->
          In a net -> usable a = false) ->
       getExternalIP h st = getExternalIPCommandLine h st)
  | None => getExternalIP h st = getExternalIPCommandLine h st
  end.
Proof.
  destruct (os_networkInterfaces h) as [nets|] eqn:Hnets.
  - split.
    + intros (name & net & a & Hkey & Hget & Ha & Hu).
      assert (exists ip, second_pass nets = Some ip) as [ip2 Hsecond].
      { destruct (first_usable net) as [ip|] eqn:Hfu.
        2: { rewrite first_usable_None in Hfu. by rewrite (Hfu a Ha) in Hu. }
        unfold second_pass. apply first_return_is_Some with name ip; [done|].
        by rewrite Hget. }
      assert (exists ip name' net',
                nets_get nets name' = Some net' /\ first_usable net' = Some ip /\
                getExternalIP h st = (Ret (Some ip), st))
        as (ip & name' & net' & Hget' & Hfu' & Hrun).
      { destruct (first_pass nets) as [ip|] eqn:Hfirst.
        - pose proof Hfirst as Hscan. unfold first_pass in Hscan.
          apply first_return_Some in Hscan as (priority & _ & Hscan).
          apply first_return_Some in Hscan as (name' & _ & Hscan).
          destruct (is_priority_name priority name'); [|done].
          destruct (nets_get nets name') as [net'|] eqn:Hget'; [|done].
          exists ip, name', net'. repeat split; try done.
          by apply getExternalIP_first_pass with nets.
        - pose proof Hsecond as Hscan. unfold second_pass in Hscan.
          apply first_return_Some in Hscan as (name' & _ & Hscan).
          destruct (nets_get nets name') as [net'|] eqn:Hget'; [|done].
          exists ip2, name', net'. repeat split; try done.
          by rewrite (getExternalIP_second_pass h st nets Hnets Hfirst), Hsecond. }
      apply first_usable_Some in Hfu' as (a' & Ha' & Hu' & <-).
      by exists name', net', a'.
    + intros Hnone.
      assert (forall name, In name (Object_keys nets) ->
                match nets_get nets name with
                | Some net => first_usable net
                | None => None
                end = None) as Hbody.
      { intros name Hkey. destruct (nets_get nets name) as [net|] eqn:Hget; [|done].
        apply first_usable_None. intros a Ha. by apply (Hnone name net a). }
      assert (first_pass nets = None) as Hfirst.
      { unfold first_pass. apply first_return_None. intros priority _.
        apply first_return_None. intros name Hkey.
        destruct (is_priority_name priority name); [|done]. by apply Hbody. }
      assert (second_pass nets = None) as Hsecond.
      { unfold second_pass. by apply first_return_None. }
      by rewrite (getExternalIP_second_pass h st nets Hnets Hfirst), Hsecond.
  - unfold getExternalIP, try_catch, bind, networkInterfaces. by rewrite Hnets.
Qed.

Lemma getExternalIP_fallback_condition_witness :
  let st := Scenario.first_run [] in
  (exists name' net' a',
     nets_get Scenario.interfaces name' = Some net' /\ In a' net' /\
     usable a' = true /\
     getExternalIP (Scenario.linux Scenario.nothing_installed) st
     = (Ret (Some (address a')), st)) /\
  getExternalIP Fixture.isolated st = getExternalIPCommandLine Fixture.isolated st.
Proof.
  intros st. split.
  - apply (proj1 (getExternalIP_fallback_condition
                    (Scenario.linux Scenario.nothing_installed) st)).
    exists "eth0", [mkAddr "fe80::1" "IPv6" false; mkAddr "192.168.1.42" "IPv4" false],
      (mkAddr "192.168.1.42" "IPv4" false).
    split; [simpl; auto|]. split; [reflexivity|]. split; [simpl; auto|reflexivity].
  - apply (proj2 (getExternalIP_fallback_condition Fixture.isolated st)).
    intros name net a [<-|[]] [= <-] [<-|[]]. reflexivity.
Defined.

Lemma try_command_run h c :
  exists r, forall st,
    try_command h c st = (Ret r, logged [EvSpawn (fst c) (default [] (snd c))] st).
Proof.
  destruct c as [cmd args]. unfold try_command, try_catch, bind. cbn [fst snd].
  destruct (child_spawnSync h cmd (default [] args)) as [e|result] eqn:Hspawn.
  - exists None. intros st. by rewrite spawnSync_run, Hspawn.
  - destruct (has_output result) eqn:Hout.
    2: { exists None. intros st. by rewrite spawnSync_run, Hspawn, Hout. }
    match goal with
    | |- context [String.eqb cmd "hostname" && ?b] =>
        destruct (String.eqb cmd "hostname" && b) eqn:Hhost
    end.
    { eexists. intros st. rewrite spawnSync_run, Hspawn, Hout. reflexivity. }
    destruct (String.eqb cmd "ip") eqn:Hip.
    { eexists. intros st. rewrite spawnSync_run, Hspawn, Hout. reflexivity. }
    eexists. intros st. rewrite spawnSync_run, Hspawn, Hout. reflexivity.
Qed.



(** ** The excluded prefixes *)

Lemma exec_loop_kept fuel : forall r pos s keep ip,
  exec_loop fuel r pos s keep = Some ip -> keep ip = true.
Proof.
  induction fuel as [|fuel IH]; intros r pos s keep ip; simpl; [done|].
  destruct (search r pos s) as [[[pos' s'] cap]|]; [|done].
  destruct (keep (default "" cap)) eqn:Hkeep; [|apply IH].
  by intros [= <-].
Qed.

Lemma try_command_answer h cmd args st st' ip :
  try_command h (cmd, args) st = (Ret (Some ip), st') ->
  not_excluded ip = true \/
  (cmd = "ip" /\
   exists result,
     child_spawnSync h cmd (default [] args) = inr result /\
     has_output result = true /\
     regex_match1 srcRegex (stdout result) = Some ip).
Proof.
  unfold try_command, try_catch, bind. rewrite spawnSync_run.
  destruct (child_spawnSync h cmd (default [] args)) as [e|result] eqn:Hspawn;
    [done|].
  destruct (has_output result) eqn:Hout; [|done].
  destruct (String.eqb cmd "hostname" && _).
  { unfold ret. intros [= Hfind _]. apply find_some in Hfind as [_ Hkeep].
    apply andb_true_iff in Hkeep as [_ Hkeep]. by left. }
  destruct (String.eqb_spec cmd "ip") as [->|_].
  - unfold ret. intros [= Hmatch _]. right. split; [done|]. by exists result.
  - unfold ret, first_kept_match. intros [= Hloop _]. left.
    exact (exec_loop_kept (S (String.length (stdout result))) inetRegex 0
             (chars (stdout result)) not_excluded ip Hloop).
Qed.

Lemma try_commands_answer h cs : forall st st' ip,
  try_commands h cs st = (Ret (Some ip), st') ->
  exists c st1 st2, In c cs /\ try_command h c st1 = (Ret (Some ip), st2).
Proof.
  induction cs as [|c cs IH]; intros st st' ip; simpl; [done|].
  unfold bind. destruct (try_command_run h c) as [[ip'|] Hc]; rewrite Hc.
  - unfold ret. intros [= -> _]. eexists c, st, _. split; [by left|apply Hc].
  - intros H. apply IH in H as (c' & st1 & st2 & Hin & H). eauto 6.
Qed.

(** X6.  An address that the fallback returns starts neither with [127.]
    nor with [169.254.], unless it is the source address that
    [ip route get 1.1.1.1] reported: the first, third and fourth command of
    the POSIX branch and the Windows branch all apply the exclusion. *)
Theorem getExternalIPCommandLine_exclusion (h : Host) (st : State) (ip : string) :
  fst (getExternalIPCommandLine h st) = Ret (Some ip) ->
  not_excluded ip = true \/
  (getOS h <> "windows" /\
   exists result,
     child_spawnSync h "ip" ["route"; "get"; "1.1.1.1"] = inr result /\
     has_output result = true /\
     regex_match1 srcRegex (stdout result) = Some ip).
Proof.
  unfold getExternalIPCommandLine, try_catch.
  destruct (String.eqb_spec (getOS h) "windows") as [Hos|Hos].
  - unfold bind. rewrite spawnSync_run.
    destruct (child_spawnSync h "ipconfig" []) as [e|result]; [done|].
    destruct (has_output result); [|done].
    unfold ret, first_kept_match. cbn [fst]. intros [= Hloop]. left.
    exact (exec_loop_kept (S (String.length (stdout result))) ipconfigRegex 0
             (chars (stdout result)) not_excluded ip Hloop).
  - destruct (try_commands h commands st) as [[r|e|c|] st'] eqn:Hrun;
      simpl; try done.
    intros [= ->].
    apply try_commands_answer in Hrun as ([cmd args] & st1 & st2 & Hin & Hrun).
    apply try_command_answer in Hrun as [Hok|[-> (result & Hspawn & Hout & Hm)]];
      [by left|].
    right. split; [done|]. exists result.
    assert (args = Some ["route"; "get"; "1.1.1.1"]) as ->; [|done].
    unfold commands in Hin. simpl in Hin.
    destruct Hin as [[=]|[[= <-]|[[=]|[[=]|[]]]]]. done.
Qed.

Lemma getExternalIPCommandLine_exclusion_witness :
  let h := Scenario.linux Fixture.hostname_lists in
  fst (getExternalIPCommandLine h (Scenario.first_run [])) = Ret (Some "10.0.0.7") /\
  not_excluded "10.0.0.7" = true.
Proof.
  intros h. split; [by vm_compute|].
  destruct (getExternalIPCommandLine_exclusion h (Scenario.first_run []) "10.0.0.7")
    as [Hok|[_ (result & Hspawn & _)]]; [by vm_compute|exact Hok|].
  by vm_compute in Hspawn.
Defined.

(** ** Properties of a plain object *)

Lemma assoc_get_set k v fields : assoc_get k (assoc_set k v fields) = v.
Proof.
  induction fields as [|[k' v'] fields IH]; simpl.
  - by rewrite String.eqb_refl.
  - destruct (String.eqb_spec k k') as [->|Hk]; simpl.
    + by rewrite String.eqb_refl.
    + by destruct (String.eqb_spec k k').
Qed.

Lemma assoc_get_set_other k k' v fields :
  k <> k' -> assoc_get k' (assoc_set k v fields) = assoc_get k' fields.
Proof.
  intros Hk. induction fields as [|[k0 v0] fields IH]; simpl.
  - by destruct (String.eqb_spec k' k) as [->|_].
  - destruct (String.eqb_spec k k0) as [->|Hk0]; simpl.
    + destruct (String.eqb_spec k' k0) as [->|_]; [done|done].
    + destruct (String.eqb_spec k' k0) as [->|_]; [done|apply IH].
Qed.

Lemma get_prop_set_prop_other o k k' v :
  k <> k' -> get_prop (set_prop o k v) k' = get_prop o k'.
Proof.
  intros Hk. destruct o; simpl; try done. by apply assoc_get_set_other.
Qed.

Lemma writes_app evs evs' : writes (evs ++ evs') = writes evs ++ writes evs'.
Proof. unfold writes. by rewrite flat_map_app. Qed.

Lemma writes_spawns evs : forallb is_spawn evs = true -> writes evs = [].
Proof.
  induction evs as [|ev evs IH]; simpl; [done|].
  rewrite andb_true_iff. intros [Hev Hevs]. destruct ev; try done. by apply IH.
Qed.

(** ** Saving and loading *)

Lemma getConfig_loads h st content v :
  fs st !! path_join h [os_homedir h; ".dexilion.cde.conf"] = Some (File content) ->
  JSON_parse h content = Some v ->
  is_plain_object v = true ->
  getConfig h st = (Ret v, st).
Proof.
  intros Hfile Hparse Hv.
  unfold getConfig, try_catch, bind, existsSync, readFileSync, join, homedir,
    configFileName; simpl.
  rewrite bool_decide_eq_true_2; [|by eexists].
  rewrite Hfile, Hparse. unfold ret. by destruct v.
Qed.



(** ** The steps of [main] *)

Lemma steady_unchanged {A} (m : M A) :
  steady m ->
  exists a evs,
    writes evs = [] /\ questions evs = [] /\
    forall st, m st = (Ret a, logged evs st).
Proof.
  intros (a & evs & Hevs & Hm). exists a, evs. split; [by apply writes_spawns|].
  split; [|done]. clear Hm.
  induction evs as [|ev evs IH]; simpl; [done|].
  simpl in Hevs. apply andb_true_iff in Hevs as [Hev Hevs].
  destruct ev; try done. by apply IH.
Qed.

Lemma promptUser_run question defaultValue st :
  promptUser question defaultValue st =
    let promptText :=
      if truthy defaultValue
      then question +:+ " (" +:+ ToString defaultValue +:+ "): "
      else question +:+ ": " in
    match stdin st with
    | answer :: rest =>
        (Ret (js_or (JStr (trim answer)) defaultValue),
         mkState (fs st) rest (trace st ++ [EvQuestion promptText]))
    | [] => (Pending, logged [EvQuestion promptText] st)
    end.
Proof.
  unfold promptUser, bind, emit, logged. simpl.
  by destruct (stdin st).
Qed.

Lemma gather_socket_post h config st :
  fs (snd (gather_socket h config st)) = fs st /\
  writes (trace (snd (gather_socket h config st))) = writes (trace st) /\
  match fst (gather_socket h config st) with
  | Ret config' =>
      truthy (get_prop config' "dockerSocket") = true /\
      get_prop config' "externalIP" = get_prop config "externalIP" /\
      get_prop config' "sshKeysDir" = get_prop config "sshKeysDir"
  | Exit code => code = 1%Z
  | Throw _ => False
  | Pending => True
  end.
Proof.
  unfold gather_socket.
  destruct (truthy (get_prop config "dockerSocket")) eqn:Hset; simpl; [done|].
  destruct (steady_unchanged _ (steady_first_accessible h (defaultSocketPaths h)))
    as (found & evs & Hw & _ & Hrun).
  unfold bind, getDockerSocketPath. rewrite Hrun, promptUser_run. simpl.
  destruct (stdin st) as [|answer rest]; simpl.
  - rewrite !writes_app, Hw. simpl. by rewrite !app_nil_r.
  - destruct (truthy (get_prop (set_prop config "dockerSocket" _) "dockerSocket"))
      eqn:Hnew; simpl; rewrite !writes_app, Hw; simpl; rewrite !app_nil_r;
      [|done].
    by rewrite (get_prop_set_prop_other _ _ "externalIP"),
      (get_prop_set_prop_other _ _ "sshKeysDir").
Qed.

Lemma gather_address_post h config st :
  fs (snd (gather_address h config st)) = fs st /\
  writes (trace (snd (gather_address h config st))) = writes (trace st) /\
  match fst (gather_address h config st) with
  | Ret config' =>
      truthy (get_prop config' "externalIP") = true /\
      get_prop config' "dockerSocket" = get_prop config "dockerSocket" /\
      get_prop config' "sshKeysDir" = get_prop config "sshKeysDir"
  | Exit code => code = 1%Z
  | Throw _ => False
  | Pending => True
  end.
Proof.
  unfold gather_address.
  destruct (truthy (get_prop config "externalIP")) eqn:Hset; simpl; [done|].
  destruct (steady_unchanged _ (steady_getExternalIP h))
    as (found & evs & Hw & _ & Hrun).
  unfold bind. rewrite Hrun, promptUser_run. simpl.
  destruct (stdin st) as [|answer rest]; simpl.
  - rewrite !writes_app, Hw. simpl. by rewrite !app_nil_r.
  - destruct (truthy (get_prop (set_prop config "externalIP" _) "externalIP"))
      eqn:Hnew; simpl; rewrite !writes_app, Hw; simpl; rewrite !app_nil_r;
      [|done].
    by rewrite (get_prop_set_prop_other _ _ "dockerSocket"),
      (get_prop_set_prop_other _ _ "sshKeysDir").
Qed.

Lemma gather_ssh_post h config st :
  fs (snd (gather_ssh h config st)) = fs st /\
  writes (trace (snd (gather_ssh h config st))) = writes (trace st) /\
  match fst (gather_ssh h config st) with
  | Ret config' =>
      get_prop config' "dockerSocket" = get_prop config "dockerSocket" /\
      get_prop config' "externalIP" = get_prop config "externalIP"
  | Pending => True
  | _ => False
  end.
Proof.
  assert (Hask : forall st',
            fs st' = fs st -> writes (trace st') = writes (trace st) ->
            let asked :=
              (do sshKeysDir <- promptUser "SSH Keys directory (leave empty to skip)"
                                  (JStr "");
               if truthy sshKeysDir
               then
                 do ex <- existsSync (ToString sshKeysDir);
                 if ex then ret (set_prop config "sshKeysDir" sshKeysDir)
                 else ret config
               else ret config) st' in
            fs (snd asked) = fs st /\
            writes (trace (snd asked)) = writes (trace st) /\
            match fst asked with
            | Ret config' =>
                get_prop config' "dockerSocket" = get_prop config "dockerSocket" /\
                get_prop config' "externalIP" = get_prop config "externalIP"
            | Pending => True
            | _ => False
            end).
  { intros st' Hfs Hw. unfold bind. rewrite promptUser_run. cbn zeta.
    destruct (stdin st') as [|answer rest]; cbn [fst snd].
    - unfold logged. cbn [fs trace]. by rewrite writes_app, app_nil_r.
    - unfold js_or. cbn [truthy]. destruct (String.eqb (trim answer) ""); cbn.
      + by rewrite writes_app, app_nil_r.
      + destruct (String.eqb (trim answer) ""); cbn.
        * by rewrite writes_app, app_nil_r.
        * destruct (bool_decide _); cbn; rewrite writes_app, app_nil_r;
            [|done].
          by rewrite (get_prop_set_prop_other _ _ "dockerSocket"),
            (get_prop_set_prop_other _ _ "externalIP"). }
  remember (gather_ssh h config st) as r eqn:Hr.
  unfold gather_ssh in Hr. unfold bind at 1 in Hr.
  rewrite getSshDirectory_find in Hr.
  destruct (List.find _ _) as [dir|]; cbn [of_nullable truthy] in Hr.
  - destruct (String.eqb dir ""); cbn [negb] in Hr; subst r;
      [exact (Hask st eq_refl eq_refl)|].
    cbn. by rewrite (get_prop_set_prop_other _ _ "dockerSocket"),
      (get_prop_set_prop_other _ _ "externalIP").
  - cbn [negb] in Hr. subst r. exact (Hask st eq_refl eq_refl).
Qed.

Lemma saveConfig_run h config st :
  let path := path_join h [os_homedir h; ".dexilion.cde.conf"] in
  let written := JSON_stringify h (configData config) in
  saveConfig h config st =
    match fs st !! path with
    | Some Directory =>
        (Throw (Error ("EISDIR: illegal operation on a directory, open '"
                       +:+ path +:+ "'")), st)
    | _ => (Ret tt, mkState (<[path := File written]> (fs st)) (stdin st)
                      (trace st ++ [EvWriteFile path written]))
    end.
Proof. done. Qed.

Lemma revalidate_post h config st :
  fs (snd (revalidate h config st)) = fs st /\
  writes (trace (snd (revalidate h config st))) = writes (trace st) /\
  match fst (revalidate h config st) with
  | Ret config' =>
      get_prop config' "dockerSocket" = get_prop config "dockerSocket" /\
      get_prop config' "sshKeysDir" = get_prop config "sshKeysDir"
  | Pending => True
  | _ => False
  end.
Proof.
  unfold revalidate, bind.
  destruct (steady_unchanged _ (steady_isIPAvailable h (get_prop config "externalIP")))
    as (available & evs & Hw & _ & Hrun).
  rewrite Hrun. destruct available; simpl.
  - by rewrite writes_app, Hw, app_nil_r.
  - destruct (steady_unchanged _ (steady_getExternalIP h))
      as (found & evs' & Hw' & _ & Hrun').
    rewrite Hrun', promptUser_run. simpl.
    destruct (stdin st) as [|answer rest]; simpl.
    + by rewrite !writes_app, Hw, Hw', !app_nil_r.
    + rewrite !writes_app, Hw, Hw'. simpl. rewrite !app_nil_r.
      by rewrite !get_prop_set_prop_other.
Qed.

Lemma getConfig_post h st :
  snd (getConfig h st) = st /\
  match fst (getConfig h st) with
  | Exit _ | Pending => False
  | _ => True
  end.
Proof.
  unfold getConfig, try_catch, bind, existsSync, readFileSync. simpl.
  destruct (bool_decide _); simpl; [|done].
  destruct (fs st !! _) as [[content|]|]; simpl; try done.
  - destruct (JSON_parse h content) as [v|]; simpl; [|done].
    by destruct (negb (String.eqb (typeof v) "object") || is_null v || Array_isArray v).
Qed.

(** What [gather] leaves behind, for every way in which it can end. *)
Lemma gather_post h config st :
  let path := path_join h [os_homedir h; ".dexilion.cde.conf"] in
  match fst (gather h config st) with
  | Ret config' =>
      truthy (get_prop config' "dockerSocket") = true /\
      truthy (get_prop config' "externalIP") = true /\
      fs (snd (gather h config st))
      = <[path := File (JSON_stringify h (configData config'))]> (fs st) /\
      writes (trace (snd (gather h config st)))
      = writes (trace st) ++ [(path, JSON_stringify h (configData config'))]
  | Exit code =>
      code = 1%Z /\ fs (snd (gather h config st)) = fs st /\
      writes (trace (snd (gather h config st))) = writes (trace st)
  | _ =>
      fs (snd (gather h config st)) = fs st /\
      writes (trace (snd (gather h config st))) = writes (trace st)
  end.
Proof.
  intros path. remember (gather h config st) as r eqn:Hr.
  unfold gather in Hr. unfold bind at 1 in Hr.
  pose proof (gather_socket_post h config st) as (Hfs1 & Hw1 & Hpost1).
  destruct (gather_socket h config st) as [[config1|e|code|] st1];
    cbn [fst snd] in *; subst r; cbn [fst snd]; try done.
  destruct Hpost1 as (Hsock1 & _ & _).
  remember ((do config0 <- gather_address h config1;
             do config2 <- gather_ssh h config0;
             run saveConfig h config2; ret config2) st1) as r eqn:Hr.
  unfold bind at 1 in Hr.
  pose proof (gather_address_post h config1 st1) as (Hfs2 & Hw2 & Hpost2).
  destruct (gather_address h config1 st1) as [[config2|e|code|] st2];
    cbn [fst snd] in *; subst r; cbn [fst snd]; try done;
    try (repeat split; congruence).
  destruct Hpost2 as (Hip2 & Hsock2 & _).
  remember ((do config0 <- gather_ssh h config2;
             run saveConfig h config0; ret config0) st2) as r eqn:Hr.
  unfold bind at 1 in Hr.
  pose proof (gather_ssh_post h config2 st2) as (Hfs3 & Hw3 & Hpost3).
  destruct (gather_ssh h config2 st2) as [[config3|e|code|] st3];
    cbn [fst snd] in *; subst r; cbn [fst snd]; try done;
    try (repeat split; congruence).
  destruct Hpost3 as (Hsock3 & Hip3). unfold bind.
  rewrite saveConfig_run. fold path.
  assert (fs st3 = fs st) as Hfs by congruence.
  assert (writes (trace st3) = writes (trace st)) as Hw by congruence.
  destruct (fs st3 !! path) as [[content|]|]; cbn.
  all: rewrite ?writes_app, ?Hfs, ?Hw; cbn.
  all: repeat split; congruence.
Qed.

(** What [main] leaves behind, for every way in which it can end. *)
Lemma main_post h st :
  let path := path_join h [os_homedir h; ".dexilion.cde.conf"] in
  (fs (snd (main h st)) = fs st /\
   writes (trace (snd (main h st))) = writes (trace st) /\
   forall code, fst (main h st) = Exit code -> code = 1%Z) \/
  (exists config,
     truthy (get_prop config "dockerSocket") = true /\
     truthy (get_prop config "externalIP") = true /\
     fs (snd (main h st))
     = <[path := File (JSON_stringify h (configData config))]> (fs st) /\
     writes (trace (snd (main h st)))
     = writes (trace st) ++ [(path, JSON_stringify h (configData config))] /\
     forall code, fst (main h st) <> Exit code).
Proof.
  intros path. remember (main h st) as r eqn:Hr.
  unfold main, load_or_gather in Hr. unfold bind at 1 2 in Hr.
  pose proof (getConfig_post h st) as [Hst Hout].
  destruct (getConfig h st) as [[loaded|e|code|] st0]; cbn [fst snd] in *;
    try done; subst st0.
  2: { subst r. left. by repeat split. }
  destruct (needs_gathering (js_nullish loaded (JObj []))).
  - pose proof (gather_post h (js_nullish loaded (JObj [])) st) as Hpost.
    cbn zeta in Hpost. fold path in Hpost.
    destruct (gather h (js_nullish loaded (JObj [])) st)
      as [[config|e|code|] st1]; cbn [fst snd] in *.
    + destruct Hpost as (Hsock & Hip & Hfs & Hw).
      pose proof (revalidate_post h config st1) as (Hfs' & Hw' & Hpost').
      rewrite <- Hr in Hfs', Hw', Hpost'.
      right. exists config. repeat split; try congruence.
      intros code Hcode. by rewrite Hcode in Hpost'.
    + subst r. left. destruct Hpost. repeat split; try done.
    + subst r. left. destruct Hpost as (-> & ? & ?). repeat split; try done.
      by intros code [= <-].
    + subst r. left. destruct Hpost. repeat split; try done.
  - unfold ret in Hr.
    pose proof (revalidate_post h (js_nullish loaded (JObj [])) st)
      as (Hfs' & Hw' & Hpost').
    rewrite <- Hr in Hfs', Hw', Hpost'.
    left. repeat split; try done.
    intros code Hcode. by rewrite Hcode in Hpost'.
Qed.

(** X8.  When [main] ends the process, the exit code is 1 and the process
    has written no file: the files are those it started with.  ([main]
    stands for the script up to the call of [runDockerContainer].) *)
Theorem main_exits_before_writing (h : Host) (st : State) (code : Z) :
  fst (main h st) = Exit code ->
  code = 1%Z /\
  fs (snd (main h st)) = fs st /\
  writes (trace (snd (main h st))) = writes (trace st).
Proof.
  intros Hexit.
  destruct (main_post h st) as [(Hfs & Hw & Hcode)|(config & _ & _ & _ & _ & Hno)].
  - split; [by apply Hcode|done].
  - by destruct (Hno code).
Qed.

Lemma main_exits_before_writing_witness :
  let h := Scenario.linux Scenario.nothing_installed in
  let st := Scenario.first_run [" "; "10.0.0.5"] in
  fst (main h st) = Exit 1 /\ fs (snd (main h st)) = fs st.
Proof.
  intros h st.
  assert (Hexit : fst (main h st) = Exit 1) by (by vm_compute).
  split; [exact Hexit|].
  exact (proj1 (proj2 (main_exits_before_writing h st 1 Hexit))).
Defined.

(** X9.  [main] writes at most one file, the configuration file, and what
    it writes there is the text of an object whose [dockerSocket] and
    [externalIP] are both truthy: a configuration that lacks one of the two
    is never saved. *)
Theorem main_saves_required_fields (h : Host) (st : State) :
  let path := path_join h [os_homedir h; ".dexilion.cde.conf"] in
  writes (trace (snd (main h st))) = writes (trace st) \/
  exists config,
    truthy (get_prop config "dockerSocket") = true /\
    truthy (get_prop config "externalIP") = true /\
    writes (trace (snd (main h st)))
    = writes (trace st) ++ [(path, JSON_stringify h (configData config))] /\
    fs (snd (main h st)) !! path
    = Some (File (JSON_stringify h (configData config))).
Proof.
  intros path.
  destruct (main_post h st) as [(_ & Hw & _)|(config & Hs & Hi & Hfs & Hw & _)].
  - by left.
  - right. exists config. repeat split; try done.
    fold path in Hfs. by rewrite Hfs, lookup_insert_eq.
Qed.

(** ** A complete configuration *)

(** X10.  A saved configuration that is a plain object and whose
    [externalIP] is a dotted quad for which the echo probe exits with status
    zero is handed to the launch as it was loaded: [main] runs this one
    probe, asks nothing and writes nothing. *)
Theorem complete_configuration_is_handed_over
    (h : Host) (st : State) (content ip : string) (v : JSValue) :
  fs st !! path_join h [os_homedir h; ".dexilion.cde.conf"] = Some (File content) ->
  JSON_parse h content = Some v ->
  is_plain_object v = true ->
  get_prop v "externalIP" = JStr ip ->
  is_dotted_quad ip = true ->
  spawn_ok h "ping" (pingArgs h ip) = true ->
  main h st = (Ret v, logged [EvSpawn "ping" (pingArgs h ip)] st).
Proof.
  intros Hfile Hparse Hv Hip Hquad Hping.
  unfold main, load_or_gather. unfold bind at 1 2.
  rewrite (getConfig_loads h st content v Hfile Hparse Hv).
  assert (Hnonempty : String.eqb ip "" = false).
  { destruct (String.eqb_spec ip "") as [->|]; [|done]. by vm_compute in Hquad. }
  assert (js_nullish v (JObj []) = v) as -> by (by destruct v).
  unfold needs_gathering. rewrite Hip. simpl. rewrite Hnonempty.
  assert (truthy v = true) as -> by (by destruct v). simpl.
  unfold revalidate, bind. unfold ret at 1.
  rewrite isIPAvailable_run, Hip, ipRegex_is_dotted_quad, Hquad, Hping. done.
Qed.

Lemma complete_configuration_is_handed_over_witness :
  let h := Scenario.linux Scenario.answers_ping in
  let st := Scenario.with_config
              (Scenario.json_text
                 "{'externalIP': '10.0.0.5', 'dockerSocket': '/run/docker.sock'}")
              ["unread"] in
  stdin (snd (main h st)) = ["unread"] /\
  fst (main h st)
  = Ret (JObj [("externalIP", JStr "10.0.0.5");
               ("dockerSocket", JStr "/run/docker.sock")]).
Proof.
  intros h st.
  rewrite (complete_configuration_is_handed_over h st
             (Scenario.json_text
                "{'externalIP': '10.0.0.5', 'dockerSocket': '/run/docker.sock'}")
             "10.0.0.5"
             (JObj [("externalIP", JStr "10.0.0.5");
                    ("dockerSocket", JStr "/run/docker.sock")]));
    [done|by vm_compute..].
Defined.

(** ** The first run *)

Lemma steady_result {A} (m : M A) (a : A) (st : State) :
  steady m -> fst (m st) = Ret a ->
  exists evs,
    writes evs = [] /\ questions evs = [] /\
    forall st', m st' = (Ret a, logged evs st').
Proof.
  intros Hm Ha. apply steady_unchanged in Hm as (a' & evs & Hw & Hq & Hrun).
  rewrite Hrun in Ha. simpl in Ha. injection Ha as ->. eauto.
Qed.

Lemma questions_app evs evs' :
  questions (evs ++ evs') = questions evs ++ questions evs'.
Proof. unfold questions. by rewrite flat_map_app. Qed.

(** X11.  The first run, with every discovery successful and both defaults
    accepted: when no configuration file exists, the socket discovery finds
    [p], the address discovery finds [ip], something exists at the
    home-relative SSH path and the user answers the two questions with
    blank lines, then the configuration gathered holds exactly these three
    values, it is saved to the configuration file, two questions are asked
    (each showing the discovered value) and two lines are read. *)
Theorem first_run_accepts_discoveries
    (h : Host) (st : State) (p ip a1 a2 : string) (rest : list string) :
  let path := path_join h [os_homedir h; ".dexilion.cde.conf"] in
  let ssh := path_join h [os_homedir h; ".ssh"] in
  let config :=
    JObj [("dockerSocket", JStr p); ("externalIP", JStr ip);
          ("sshKeysDir", JStr ssh)] in
  let written := JSON_stringify h (configData config) in
  fs st !! path = None ->
  fst (getDockerSocketPath h st) = Ret (Some p) -> p <> "" ->
  fst (getExternalIP h st) = Ret (Some ip) -> ip <> "" ->
  is_Some (fs st !! ssh) -> ssh <> "" ->
  stdin st = a1 :: a2 :: rest -> trim a1 = "" -> trim a2 = "" ->
  exists evs,
    load_or_gather h st
    = (Ret config,
       mkState (<[path := File written]> (fs st)) rest (trace st ++ evs)) /\
    questions evs
    = ["Docker Socket path (" +:+ p +:+ "): ";
       "IP address for React Native packager (" +:+ ip +:+ "): "] /\
    writes evs = [(path, written)].
Proof.
  intros path ssh config written Hnofile Hsock Hp Haddr Hip Hssh Hsshne
    Hin Ha1 Ha2.
  destruct (steady_result _ _ _ (steady_first_accessible h _) Hsock)
    as (evs1 & Hw1 & Hq1 & Hrun1).
  destruct (steady_result _ _ _ (steady_getExternalIP h) Haddr)
    as (evs2 & Hw2 & Hq2 & Hrun2).
  apply String.eqb_neq in Hp, Hip, Hsshne.
  exists (evs1 ++ [EvQuestion ("Docker Socket path (" +:+ p +:+ "): ")]
          ++ evs2
          ++ [EvQuestion ("IP address for React Native packager (" +:+ ip +:+ "): ")]
          ++ [EvWriteFile path written]).
  split.
  - unfold load_or_gather. unfold bind at 1.
    assert (getConfig h st = (Ret JNull, st)) as ->.
    { unfold getConfig, try_catch, bind, existsSync, join, homedir, configFileName.
      simpl. fold path. rewrite Hnofile.
      rewrite bool_decide_eq_false_2; [done|]. by intros [x Hx]. }
    simpl. unfold gather. unfold bind at 1.
    unfold gather_socket, getDockerSocketPath. simpl. unfold bind at 1 2.
    rewrite Hrun1, promptUser_run. simpl. rewrite Hin. unfold js_or. simpl.
    rewrite Ha1, Hp. simpl. rewrite ?Hp. simpl. rewrite ?Hp. simpl.
    unfold bind at 1. unfold gather_address. simpl. unfold bind at 1 2.
    rewrite Hrun2, promptUser_run. simpl. unfold js_or. simpl.
    rewrite Ha2, Hip. simpl. rewrite ?Hip. simpl. rewrite ?Hip. simpl.
    unfold bind at 1. unfold gather_ssh. unfold bind at 1.
    rewrite getSshDirectory_find.
    assert (List.find (exists_in (fs st)) (ssh_candidates h) = Some ssh) as Hfind.
    { unfold ssh_candidates. simpl. fold ssh. unfold exists_in at 1.
      by rewrite bool_decide_eq_true_2. }
    cbn [fs]. rewrite Hfind. simpl. rewrite Hsshne. simpl.
    unfold bind. rewrite saveConfig_run. cbn [fs stdin trace].
    fold path. rewrite Hnofile. unfold ret. f_equal.
    unfold configData. simpl. fold ssh. fold config. fold written.
    f_equal. by rewrite <- !app_assoc.
  - rewrite !questions_app, !writes_app, Hq1, Hq2, Hw1, Hw2. done.
Qed.

Lemma first_run_accepts_discoveries_witness :
  let h := Scenario.linux Scenario.docker_running in
  let st := Fixture.with_ssh [""; "  "; "unread"] in
  let config :=
    JObj [("dockerSocket", JStr "/var/run/docker.sock");
          ("externalIP", JStr "192.168.1.42");
          ("sshKeysDir", JStr "/home/dev/.ssh")] in
  exists evs,
    load_or_gather h st
    = (Ret config,
       mkState (<[Scenario.configPath
                  := File (Scenario.stringify (configData config))]> (fs st))
         ["unread"] (trace st ++ evs)) /\
    questions evs
    = ["Docker Socket path (/var/run/docker.sock): ";
       "IP address for React Native packager (192.168.1.42): "] /\
    writes evs
    = [(Scenario.configPath, Scenario.stringify (configData config))].
Proof.
  intros h st config.
  apply (first_run_accepts_discoveries h st "/var/run/docker.sock" "192.168.1.42"
           "" "  " ["unread"]);
    try done; try (by vm_compute); by eexists.
Defined.

(** ** An answer of white space *)

Lemma trim_start_nil l : trim_start l = [] <-> forallb is_space l = true.
Proof.
  induction l as [|c l IH]; simpl; [done|].
  destruct (is_space c); simpl; [done|]. split; done.
Qed.

Lemma trim_start_head l c l' : trim_start l = c :: l' -> is_space c = false.
Proof.
  induction l as [|x l IH]; simpl; [done|].
  destruct (is_space x) eqn:Hx; [done|]. by intros [= <- _].
Qed.

Lemma forallb_rev {A} (f : A -> bool) l : forallb f (rev l) = forallb f l.
Proof.
  induction l as [|x l IH]; simpl; [done|].
  rewrite forallb_app, IH. simpl. rewrite andb_true_r. apply andb_comm.
Qed.

Lemma text_nil l : text l = "" <-> l = [].
Proof. by destruct l. Qed.

Lemma trim_blank s : trim s = "" <-> forallb is_space (chars s) = true.
Proof.
  unfold trim. rewrite text_nil. split.
  - intros H. apply (f_equal (@rev ascii)) in H. rewrite rev_involutive in H.
    simpl in H. apply trim_start_nil in H. rewrite forallb_rev in H.
    destruct (trim_start (chars s)) as [|c l] eqn:Hstart.
    + by apply trim_start_nil.
    + apply trim_start_head in Hstart. simpl in H. by rewrite Hstart in H.
  - intros H. apply trim_start_nil in H. by rewrite H.
Qed.

(** X12.  A question reads one line.  An answer that is empty or consists
    of white space only stands for the default; any other answer is taken
    without the white space around it, whatever the default is.  When no
    line is left the question stays without an answer.  The default is
    shown in the question only if it is truthy. *)
Theorem promptUser_blank_is_default
    (question : string) (defaultValue : JSValue) (st : State) :
  let promptText :=
    if truthy defaultValue
    then question +:+ " (" +:+ ToString defaultValue +:+ "): "
    else question +:+ ": " in
  promptUser question defaultValue st =
    match stdin st with
    | answer :: rest =>
        (Ret (if forallb is_space (chars answer)
              then defaultValue
              else JStr (trim answer)),
         mkState (fs st) rest (trace st ++ [EvQuestion promptText]))
    | [] => (Pending, logged [EvQuestion promptText] st)
    end.
Proof.
  intros promptText. rewrite promptUser_run. fold promptText. cbn zeta.
  destruct (stdin st) as [|answer rest]; [done|].
  unfold js_or. simpl.
  destruct (forallb is_space (chars answer)) eqn:Hblank.
  - apply trim_blank in Hblank. by rewrite Hblank.
  - destruct (String.eqb_spec (trim answer) "") as [Hempty|_]; [|done].
    apply trim_blank in Hempty. congruence.
Qed.

(** ** The build directory *)

Section BuildDirectoryFacts.

Variable h : Host.
Variable path_dirname : string -> string.
Variable rootDir : string.

Lemma ancestors_fixed n dir :
  path_dirname dir = dir -> forall d, In d (ancestors path_dirname n dir) -> d = dir.
Proof.
  intros Hfix. induction n as [|n IH]; simpl; [done|].
  intros d [<-|Hd]; [done|]. rewrite Hfix in Hd. auto.
Qed.

Lemma walk_up_find st n : forall fuel dir,
  n < fuel ->
  ~ In rootDir (ancestors path_dirname n dir) ->
  ancestors path_dirname (S n) dir = ancestors path_dirname n dir ++ [rootDir] ->
  walk_up h path_dirname rootDir fuel dir st
  = (Ret (Done (List.find (has_dockerfile h (fs st))
                  (ancestors path_dirname n dir))), st).
Proof.
  induction n as [|n IH]; intros fuel dir Hfuel Hnot Hlast.
  - destruct fuel as [|fuel]; [lia|]. simpl in Hlast. injection Hlast as ->.
    simpl. by rewrite String.eqb_refl.
  - destruct fuel as [|fuel]; [lia|].
    assert (dir <> rootDir) as Hdir by (intros ->; apply Hnot; by left).
    cbn [walk_up]. rewrite (proj2 (String.eqb_neq _ _) Hdir). cbn [negb].
    unfold bind, existsSync. cbn [fst snd ancestors List.find].
    unfold has_dockerfile at 1. unfold join.
    destruct (bool_decide (is_Some (fs st !! path_join h [dir; "Dockerfile"])));
      [done|].
    assert (~ In rootDir (ancestors path_dirname n (path_dirname dir))) as Hnot'.
    { intros Hin. apply Hnot. by right. }
    assert (ancestors path_dirname (S n) (path_dirname dir)
            = ancestors path_dirname n (path_dirname dir) ++ [rootDir]) as Hlast'.
    { change (ancestors path_dirname (S (S n)) dir)
        with (dir :: ancestors path_dirname (S n) (path_dirname dir)) in Hlast.
      change (ancestors path_dirname (S n) dir)
        with (dir :: ancestors path_dirname n (path_dirname dir)) in Hlast.
      simpl in Hlast. by injection Hlast. }
    destruct (String.eqb_spec (path_dirname dir) dir) as [Hfix|_].
    + exfalso. apply Hnot'. rewrite Hfix in *.
      assert (In rootDir (ancestors path_dirname (S n) dir)) as Hin.
      { rewrite Hlast'. apply in_or_app. right. by left. }
      apply (ancestors_fixed _ _ Hfix) in Hin. subst dir. done.
    + apply IH; [lia|done|done].
Qed.

(** X13.  Let the directory of the script lie [n] levels below the root:
    taking the parent [n] times leads to the root, and not earlier.  With
    more than [n] turns allowed, the search for the build directory ends,
    reads the files only, and returns the nearest directory that holds a
    [Dockerfile] among the directory of the script, its ancestors and the
    root; it returns [null] when none of them holds one. *)
Theorem findDockerBuildDirectory_nearest
    (scriptDir : string) (n fuel : nat) (st : State) :
  n < fuel ->
  ~ In rootDir (ancestors path_dirname n scriptDir) ->
  ancestors path_dirname (S n) scriptDir
  = ancestors path_dirname n scriptDir ++ [rootDir] ->
  findDockerBuildDirectory h path_dirname scriptDir rootDir fuel st
  = (Ret (Done (List.find (has_dockerfile h (fs st))
                  (ancestors path_dirname (S n) scriptDir))), st).
Proof.
  intros Hfuel Hnot Hlast. unfold findDockerBuildDirectory, bind.
  rewrite (walk_up_find st n fuel scriptDir Hfuel Hnot Hlast), Hlast, find_append.
  destruct (List.find _ (ancestors path_dirname n scriptDir)) as [dir|]; [done|].
  unfold existsSync, join. simpl. unfold has_dockerfile.
  by destruct (bool_decide _).
Qed.

End BuildDirectoryFacts.

Lemma findDockerBuildDirectory_nearest_witness :
  findDockerBuildDirectory (Scenario.linux Scenario.nothing_installed)
    Fixture.posix_dirname "/usr/lib/cde/src" "/" 5 Fixture.installed
  = (Ret (Done (Some "/usr/lib/cde")), Fixture.installed).
Proof.
  rewrite (findDockerBuildDirectory_nearest
             (Scenario.linux Scenario.nothing_installed)
             Fixture.posix_dirname "/" "/usr/lib/cde/src" 4 5 Fixture.installed);
    [by vm_compute|lia| |by vm_compute].
  vm_compute. intros [H|[H|[H|[H|[]]]]]; discriminate H.
Defined.

(** ** The shape of the addresses found by the fallback *)

Lemma firstn_exact {A} (l1 l2 : list A) : firstn (length l1) (l1 ++ l2) = l1.
Proof. induction l1 as [|x l1 IH]; simpl; [by destruct l2|]. by rewrite IH. Qed.

(** The text that the matcher hands on as group 1 is the text that the
    group has taken. *)
Lemma rmatch_capture {R} r g :
  final_group r = Some g ->
  forall pos s cap (k : nat -> list ascii -> option string -> option R) x,
    rmatch r pos s cap k = Some x ->
    exists s0 s1 s2,
      s = s0 ++ s1 ++ s2 /\ matches g (pos + length s0) s1 s2 /\
      k (pos + length s0 + length s1) s2 (Some (text s1)) = Some x.
Proof.
  induction r as [|cl|a IHa b IHb|a IHa b IHb|cl|r IH| |]; simpl; try done.
  - intros Hg pos s cap k x H.
    apply rmatch_sound in H as (sa & s' & cap' & -> & _ & H).
    apply (IHb Hg) in H as (s0 & s1 & s2 & -> & Hm & H).
    exists (sa ++ s0), s1, s2. rewrite <- app_assoc, length_app, Nat.add_assoc.
    done.
  - intros [= ->] pos s cap k x H.
    apply rmatch_sound in H as (s1 & s2 & cap' & -> & Hm & H).
    exists [], s1, s2. simpl. rewrite Nat.add_0_r.
    replace (pos + length s1 - pos) with (length s1) in H by lia.
    by rewrite firstn_exact in H.
Qed.

Lemma search_capture r g s :
  final_group r = Some g ->
  forall pos pos' s' cap,
    search r pos s = Some (pos', s', cap) ->
    exists p s1, cap = Some (text s1) /\ matches g p s1 s'.
Proof.
  intros Hg. induction s as [|c s IH]; intros pos pos' s' cap; simpl.
  - destruct (rmatch r pos [] None _) as [m|] eqn:Hm; [|done].
    intros [= ->].
    apply (rmatch_capture r g Hg) in Hm as (s0 & s1 & s2 & _ & Hm & [= _ <- <-]).
    eauto.
  - destruct (rmatch r pos (c :: s) None _) as [m|] eqn:Hm.
    + intros [= ->].
      apply (rmatch_capture r g Hg) in Hm as (s0 & s1 & s2 & _ & Hm & [= _ <- <-]).
      eauto.
    + apply IH.
Qed.

Lemma exec_loop_capture r g keep fuel :
  final_group r = Some g ->
  forall pos s ip,
    exec_loop fuel r pos s keep = Some ip ->
    exists p s1 rest, ip = text s1 /\ matches g p s1 rest.
Proof.
  intros Hg. induction fuel as [|fuel IH]; intros pos s ip; simpl; [done|].
  destruct (search r pos s) as [[[pos' s'] cap]|] eqn:Hs; [|done].
  destruct (keep (default "" cap)); [|apply IH].
  intros [= <-]. apply (search_capture r g _ Hg) in Hs as (p & s1 & -> & Hm).
  simpl. eauto.
Qed.

Lemma cmatch_digit c : cmatch digit c = is_digit c.
Proof. reflexivity. Qed.

Lemma matches_digit_group pos s rest :
  matches (Between 1 3 (Chr digit)) pos s rest -> is_digit_group s = true.
Proof.
  unfold Between, Opt. cbn [Times UpTo Nat.sub Opt matches]. unfold Opt.
  cbn [matches]. intros H.
  repeat match goal with
         | H : _ /\ _ |- _ => destruct H
         | H : exists _, _ |- _ => destruct H
         | H : _ \/ _ |- _ => destruct H
         | H : cmatch digit _ = true |- _ => rewrite cmatch_digit in H
         end; subst; simpl; unfold is_digit_group; simpl.
  all: repeat match goal with H : is_digit _ = true |- _ => rewrite H; clear H end.
  all: done.
Qed.

Lemma chars_text l : chars (text l) = l.
Proof. apply list_ascii_of_string_of_list_ascii. Qed.

Lemma is_digit_group_digits l : is_digit_group l = true -> forallb is_digit l = true.
Proof. unfold is_digit_group. rewrite !andb_true_iff. tauto. Qed.

Lemma matches_loose_quad pos s rest :
  matches loose_quad pos s rest -> is_loose_quad (text s) = true.
Proof.
  unfold loose_quad. cbn [matches].
  intros (a & s' & -> & Ha & (dot1 & s1 & -> & (c1 & -> & Hc1) &
          (b & s2 & -> & Hb & (dot2 & s3 & -> & (c2 & -> & Hc2) &
          (c & s4 & -> & Hc & (dot3 & d & -> & (c3 & -> & Hc3) & Hd)))))).
  apply Ascii.eqb_eq in Hc1, Hc2, Hc3. subst c1 c2 c3.
  apply matches_digit_group in Ha, Hb, Hc, Hd.
  unfold is_loose_quad. rewrite chars_text. simpl.
  rewrite !split_dots_piece, split_dots_digits
    by by apply is_digit_group_digits.
  simpl. by rewrite Ha, Hb, Hc, Hd.
Qed.

Lemma try_command_shape h cmd args st st' ip :
  try_command h (cmd, args) st = (Ret (Some ip), st') -> is_loose_quad ip = true.
Proof.
  unfold try_command, try_catch, bind. rewrite spawnSync_run.
  destruct (child_spawnSync h cmd (default [] args)) as [e|result]; [done|].
  destruct (has_output result); [|done].
  destruct (String.eqb cmd "hostname" && _).
  { unfold ret. intros [= Hfind _]. apply find_some in Hfind as [_ Hkeep].
    apply andb_true_iff in Hkeep as [Htest _].
    unfold hostnameRegex in Htest.
    apply regex_test_anchored in Htest as (s1 & s2 & Hs & Hm).
    cbn [matches] in Hm. destruct Hm as (q & e & -> & Hq & -> & ->).
    apply matches_loose_quad in Hq. rewrite !app_nil_r in Hs.
    rewrite <- Hs in Hq. unfold chars, text in Hq.
    by rewrite string_of_list_ascii_of_string in Hq. }
  destruct (String.eqb cmd "ip").
  - unfold ret, regex_match1. intros [= Hmatch _].
    destruct (search srcRegex 0 (chars (stdout result))) as [[[pos' s'] cap]|] eqn:Hs;
      [|done].
    apply (search_capture srcRegex loose_quad _ eq_refl) in Hs
      as (p & s1 & -> & Hm).
    injection Hmatch as <-. by apply matches_loose_quad in Hm.
  - unfold ret. intros [= Hloop _].
    apply (exec_loop_capture inetRegex loose_quad not_excluded
             (S (String.length (stdout result))) eq_refl)
      in Hloop as (p & s1 & rest & -> & Hm).
    by apply matches_loose_quad in Hm.
Qed.

(** X14.  An address that the fallback returns is made of four pieces of
    one to three decimal digits with a dot between each two of them, on
    every platform and whichever command produced it. *)
Theorem getExternalIPCommandLine_shape (h : Host) (st : State) (ip : string) :
  fst (getExternalIPCommandLine h st) = Ret (Some ip) ->
  is_loose_quad ip = true.
Proof.
  unfold getExternalIPCommandLine, try_catch.
  destruct (String.eqb (getOS h) "windows").
  - unfold bind. rewrite spawnSync_run.
    destruct (child_spawnSync h "ipconfig" []) as [e|result]; [done|].
    destruct (has_output result); [|done].
    unfold ret. cbn [fst]. intros [= Hloop].
    apply (exec_loop_capture ipconfigRegex loose_quad not_excluded
             (S (String.length (stdout result))) eq_refl)
      in Hloop as (p & s1 & rest & -> & Hm).
    by apply matches_loose_quad in Hm.
  - destruct (try_commands h commands st) as [[r|e|c|] st'] eqn:Hrun;
      simpl; try done.
    intros [= ->].
    apply try_commands_answer in Hrun as ([cmd args] & st1 & st2 & _ & Hrun).
    by apply try_command_shape in Hrun.
Qed.

Lemma getExternalIPCommandLine_shape_witness :
  let h := Scenario.linux Scenario.route_from_link_local in
  fst (getExternalIPCommandLine h (Scenario.first_run []))
  = Ret (Some "169.254.10.20") /\
  is_loose_quad "169.254.10.20" = true.
Proof.
  intros h.
  assert (Hrun : fst (getExternalIPCommandLine h (Scenario.first_run []))
                 = Ret (Some "169.254.10.20")) by (by vm_compute).
  split; [exact Hrun|].
  exact (getExternalIPCommandLine_shape h (Scenario.first_run []) _ Hrun).
Defined.

(** ** Refusing a required value *)

Lemma getConfig_absent h st :
  fs st !! path_join h [os_homedir h; ".dexilion.cde.conf"] = None ->
  getConfig h st = (Ret JNull, st).
Proof.
  intros Hnofile.
  unfold getConfig, try_catch, bind, existsSync, join, homedir, configFileName.
  simpl. rewrite Hnofile. rewrite bool_decide_eq_false_2; [done|]. by intros [x Hx].
Qed.

(** X15.  On a first run the two required values cannot be refused.  When
    no socket is discovered and the answer to the first question is blank,
    [main] exits with code 1 after this one question.  When a socket is
    typed, no address is discovered and the answer to the second question
    is blank, [main] exits with code 1 after the two questions.  In both
    cases nothing is saved. *)
Theorem refusing_a_required_value_exits
    (h : Host) (st : State) (a1 a2 : string) (rest : list string) :
  fs st !! path_join h [os_homedir h; ".dexilion.cde.conf"] = None ->
  (fst (getDockerSocketPath h st) = Ret None ->
   stdin st = a1 :: rest -> trim a1 = "" ->
   exists evs,
     main h st = (Exit 1, mkState (fs st) rest (trace st ++ evs)) /\
     questions evs = ["Docker Socket path: "] /\ writes evs = []) /\
  (fst (getExternalIP h st) = Ret None ->
   stdin st = a1 :: a2 :: rest -> trim a1 <> "" -> trim a2 = "" ->
   exists evs,
     main h st = (Exit 1, mkState (fs st) rest (trace st ++ evs)) /\
     exists socketQuestion,
       questions evs = [socketQuestion; "IP address for React Native packager: "]
       /\ writes evs = []).
Proof.
  intros Hnofile. split.
  - intros Hsock Hin Ha1.
    destruct (steady_result _ _ _ (steady_first_accessible h _) Hsock)
      as (evs1 & Hw1 & Hq1 & Hrun1).
    exists (evs1 ++ [EvQuestion "Docker Socket path: "]). split.
    + unfold main, load_or_gather. unfold bind at 1 2.
      rewrite (getConfig_absent h st Hnofile). simpl.
      unfold gather. unfold bind at 1.
      unfold gather_socket, getDockerSocketPath. simpl. unfold bind at 1 2.
      rewrite Hrun1, promptUser_run. simpl. rewrite Hin. unfold js_or. simpl.
      rewrite Ha1. simpl. by rewrite <- app_assoc.
    + by rewrite questions_app, writes_app, Hq1, Hw1.
  - intros Haddr Hin Ha1 Ha2.
    destruct (steady_unchanged _ (steady_first_accessible h (defaultSocketPaths h)))
      as (found & evs1 & Hw1 & Hq1 & Hrun1).
    destruct (steady_result _ _ _ (steady_getExternalIP h) Haddr)
      as (evs2 & Hw2 & Hq2 & Hrun2).
    apply String.eqb_neq in Ha1.
    eexists (evs1 ++ [EvQuestion _] ++ evs2
             ++ [EvQuestion "IP address for React Native packager: "]). split.
    + unfold main, load_or_gather. unfold bind at 1 2.
      rewrite (getConfig_absent h st Hnofile). simpl.
      unfold gather. unfold bind at 1.
      unfold gather_socket, getDockerSocketPath. simpl. unfold bind at 1 2.
      rewrite Hrun1, promptUser_run. simpl. rewrite Hin. unfold js_or at 1. simpl.
      rewrite Ha1. simpl. rewrite Ha1. simpl.
      unfold bind at 1. unfold gather_address. simpl. unfold bind at 1 2.
      rewrite Hrun2, promptUser_run. simpl. unfold js_or. simpl.
      rewrite Ha2. simpl. f_equal. f_equal. rewrite <- !app_assoc. reflexivity.
    + eexists. rewrite !questions_app, !writes_app, Hq1, Hq2, Hw1, Hw2. done.
Qed.

Lemma refusing_a_required_value_exits_witness :
  let h := Scenario.linux Scenario.nothing_installed in
  (fst (main h (Scenario.first_run ["  "; "unread"])) = Exit 1 /\
   stdin (snd (main h (Scenario.first_run ["  "; "unread"]))) = ["unread"]) /\
  fst (main Fixture.isolated (Scenario.first_run ["/tmp/d.sock"; ""; "unread"]))
  = Exit 1.
Proof.
  intros h. split.
  2: { assert (Hnone : fst (getExternalIP Fixture.isolated
                              (Scenario.first_run ["/tmp/d.sock"; ""; "unread"]))
                       = Ret None) by (by vm_compute).
       destruct (proj2 (refusing_a_required_value_exits Fixture.isolated
                          (Scenario.first_run ["/tmp/d.sock"; ""; "unread"])
                          "/tmp/d.sock" "" ["unread"] eq_refl)
                   Hnone eq_refl)
         as (evs & Hrun & _); [by vm_compute|reflexivity|].
       by rewrite Hrun. }
  assert (Hnone : fst (getDockerSocketPath h (Scenario.first_run ["  "; "unread"]))
                  = Ret None) by (by vm_compute).
  destruct (proj1 (refusing_a_required_value_exits h
                     (Scenario.first_run ["  "; "unread"]) "  " "" ["unread"]
                     eq_refl) Hnone eq_refl eq_refl)
    as (evs & Hrun & _).
  by rewrite Hrun.
Defined.

(** ** The questions of [main] *)

Lemma asks_more {A} (n n' : nat) (m : M A) :
  n <= n' -> asks_at_most n m -> asks_at_most n' m.
Proof.
  intros Hn Hm st. destruct (Hm st) as (asked & Hq & Hlen).
  exists asked. split; [done|lia].
Qed.

Lemma asks_unchanged {A} (m : M A) :
  (forall st, snd (m st) = st) -> asks_at_most 0 m.
Proof.
  intros Hm st. exists []. rewrite Hm, app_nil_r. split; [done|simpl; lia].
Qed.

Lemma asks_ret {A} (a : A) : asks_at_most 0 (ret a).
Proof. by apply asks_unchanged. Qed.

Lemma asks_process_exit {A} code : asks_at_most 0 (@process_exit A code).
Proof. by apply asks_unchanged. Qed.

Lemma asks_steady {A} (m : M A) : steady m -> asks_at_most 0 m.
Proof.
  intros Hm st. apply steady_unchanged in Hm as (a & evs & _ & Hq & Hrun).
  exists []. rewrite Hrun. simpl. rewrite questions_app, Hq. split; [done|simpl; lia].
Qed.

Lemma asks_bind {A B} (n k : nat) (m : M A) (f : A -> M B) :
  asks_at_most n m -> (forall a, asks_at_most k (f a)) ->
  asks_at_most (n + k) (bind m f).
Proof.
  intros Hm Hf st. unfold bind. destruct (Hm st) as (asked & Hq & Hlen).
  destruct (m st) as [[a|e|code|] st']; simpl in *.
  - destruct (Hf a st') as (asked' & Hq' & Hlen').
    exists (asked ++ asked'). rewrite Hq', Hq, <- app_assoc, length_app.
    split; [done|lia].
  - exists asked. split; [done|lia].
  - exists asked. split; [done|lia].
  - exists asked. split; [done|lia].
Qed.

Lemma asks_promptUser question defaultValue :
  asks_at_most 1 (promptUser question defaultValue).
Proof.
  intros st. rewrite promptUser_run. cbn zeta.
  destruct (stdin st); simpl; rewrite questions_app; eexists; split; done.
Qed.

Lemma asks_existsSync path : asks_at_most 0 (existsSync path).
Proof. by apply asks_unchanged. Qed.

Lemma asks_getConfig h : asks_at_most 0 (getConfig h).
Proof. apply asks_unchanged. intros st. apply getConfig_post. Qed.

Lemma asks_saveConfig h config : asks_at_most 0 (saveConfig h config).
Proof.
  intros st. rewrite saveConfig_run. cbn zeta. exists [].
  destruct (fs st !! _) as [[content|]|]; simpl;
    rewrite ?questions_app, ?app_nil_r; split; simpl; done || lia.
Qed.

Lemma asks_gather_socket h config : asks_at_most 1 (gather_socket h config).
Proof.
  unfold gather_socket.
  destruct (negb (truthy (get_prop config "dockerSocket")));
    [|apply (asks_more 0); [lia|apply asks_ret]].
  apply (asks_bind 0 1); [apply asks_steady, steady_first_accessible|].
  intros found. apply (asks_bind 1 0); [apply asks_promptUser|].
  intros answer. cbn zeta. destruct (negb _); [apply asks_process_exit|apply asks_ret].
Qed.

Lemma asks_gather_address h config : asks_at_most 1 (gather_address h config).
Proof.
  unfold gather_address.
  destruct (negb (truthy (get_prop config "externalIP")));
    [|apply (asks_more 0); [lia|apply asks_ret]].
  apply (asks_bind 0 1); [apply asks_steady, steady_getExternalIP|].
  intros found. apply (asks_bind 1 0); [apply asks_promptUser|].
  intros answer. cbn zeta. destruct (negb _); [apply asks_process_exit|apply asks_ret].
Qed.

Lemma asks_gather_ssh h config : asks_at_most 1 (gather_ssh h config).
Proof.
  unfold gather_ssh.
  apply (asks_bind 0 1).
  { apply asks_unchanged. intros st. by rewrite getSshDirectory_find. }
  intros found. destruct (negb _); [|apply (asks_more 0); [lia|apply asks_ret]].
  apply (asks_bind 1 0); [apply asks_promptUser|].
  intros answer. destruct (truthy answer); [|apply asks_ret].
  apply (asks_bind 0 0); [apply asks_existsSync|].
  intros ex. destruct ex; apply asks_ret.
Qed.

Lemma asks_revalidate h config : asks_at_most 1 (revalidate h config).
Proof.
  unfold revalidate.
  apply (asks_bind 0 1); [apply asks_steady, steady_isIPAvailable|].
  intros available. destruct (negb available);
    [|apply (asks_more 0); [lia|apply asks_ret]].
  apply (asks_bind 0 1); [apply asks_steady, steady_getExternalIP|].
  intros found. apply (asks_bind 1 0); [apply asks_promptUser|].
  intros answer. apply asks_ret.
Qed.

(** X16.  [main] asks at most four questions, one for the socket, one for
    the address, one for the SSH directory and one for the replacement of
    the address: no question is asked a second time, whatever is answered. *)
Theorem main_asks_at_most_four (h : Host) :
  asks_at_most 4 (main h) /\
  (forall config, asks_at_most 1 (revalidate h config)).
Proof.
  split; [|apply asks_revalidate].
  unfold main. apply (asks_bind 3 1); [|apply asks_revalidate].
  unfold load_or_gather. apply (asks_bind 0 3); [apply asks_getConfig|].
  intros loaded. cbn zeta. destruct (needs_gathering _);
    [|apply (asks_more 0); [lia|apply asks_ret]].
  unfold gather. apply (asks_bind 1 2); [apply asks_gather_socket|].
  intros config1. apply (asks_bind 1 1); [apply asks_gather_address|].
  intros config2. apply (asks_bind 1 0); [apply asks_gather_ssh|].
  intros config3. apply (asks_bind 0 0); [apply asks_saveConfig|].
  intros _. apply asks_ret.
Qed.

(** ** A blank answer to the replacement question *)

Lemma get_prop_set_prop o k v :
  is_plain_object o = true -> get_prop (set_prop o k v) k = v.
Proof. destruct o; try done. intros _. apply assoc_get_set. Qed.

(** X17.  When the liveness check rejects the address of a configuration
    and the user answers the replacement question with a blank line, the
    address handed to the launch is the one that a fresh discovery finds
    and, when it finds none, the rejected address itself; it is not checked
    again. *)
Theorem blank_replacement_keeps_address
    (h : Host) (config : JSValue) (st : State)
    (found : option string) (answer : string) (rest : list string) :
  is_plain_object config = true ->
  fst (isIPAvailable h (get_prop config "externalIP") st) = Ret false ->
  fst (getExternalIP h st) = Ret found ->
  stdin st = answer :: rest ->
  trim answer = "" ->
  exists config',
    fst (revalidate h config st) = Ret config' /\
    stdin (snd (revalidate h config st)) = rest /\
    get_prop config' "externalIP"
    = match found with
      | Some ip => if String.eqb ip "" then get_prop config "externalIP" else JStr ip
      | None => get_prop config "externalIP"
      end.
Proof.
  intros Hobj Hcheck Hfound Hin Hblank.
  destruct (steady_result _ _ _ (steady_isIPAvailable h _) Hcheck)
    as (evs1 & _ & _ & Hrun1).
  destruct (steady_result _ _ _ (steady_getExternalIP h) Hfound)
    as (evs2 & _ & _ & Hrun2).
  unfold revalidate, bind. rewrite Hrun1. cbn [negb].
  rewrite Hrun2, promptUser_run. cbn zeta. cbn [stdin logged]. rewrite Hin.
  eexists. split; [reflexivity|]. split; [done|].
  rewrite (get_prop_set_prop _ _ _ Hobj). unfold js_or at 1. simpl.
  rewrite Hblank. simpl. unfold js_or.
  destruct found as [ip|]; simpl; [|done]. by destruct (String.eqb ip "").
Qed.

Lemma blank_replacement_keeps_address_witness :
  let h := Scenario.bridge_only in
  let config :=
    JObj [("dockerSocket", JStr "/var/run/docker.sock");
          ("externalIP", JStr "10.0.0.5")] in
  exists config',
    fst (revalidate h config (Scenario.first_run [""])) = Ret config' /\
    stdin (snd (revalidate h config (Scenario.first_run [""]))) = [] /\
    get_prop config' "externalIP" = JStr "172.17.0.1".
Proof.
  intros h config.
  apply (blank_replacement_keeps_address h config (Scenario.first_run [""])
           (Some "172.17.0.1") "" []); by vm_compute.
Defined.
